(** * Property investment simulator: amortization engine and down-payment sweep

    A shallow embedding of [property_sim_refactor.py] (class [PropertySim]) and
    of [auto_sim.py] (class [AutoSim]), followed by the properties of the
    month-by-month loop, of the summary and of the sweep.

    Number model.  Python floats are represented by exact rationals in
    canonical form ([Qc]): the general theorems are statements of exact
    arithmetic, and rounding, overflow, infinities and NaN are outside them.
    The mortgage split of the loop is embedded a second time on binary64
    floats (module [Binary64]), to evaluate it with the rounding of the
    machine at given inputs.  Python ints ([amort_years], [years],
    [num_simulations]) are [Z]; the loop counter of [range(months)] is a
    [nat].

    Exceptions.  The divisions whose divisor depends on the configuration
    raise [ZeroDivisionError] on a zero divisor, as Python float division
    does; indexing an empty frame raises [KeyError]; [np.linspace] with a
    negative count raises [ValueError].  The [date] column is carried as a
    month offset from [start_date]; parsing of the date string is not
    modelled. *)

From Stdlib Require Import QArith Qcanon Qcabs Qround Lqa Lia ZArith List String Bool Arith.
From Stdlib Require PrimFloat Uint63.
Import ListNotations.
Open Scope Qc_scope.

(** ** Numbers *)

Definition qz (z : Z) : Qc := Q2Qc (inject_Z z).

Definition Qcltb (x y : Qc) : bool :=
  match x ?= y with Lt => true | _ => false end.

Definition Qcleb (x y : Qc) : bool :=
  match x ?= y with Gt => false | _ => true end.

(** [max(a, b)] and [min(a, b)] of Python: the first argument is kept unless
    the second one is strictly better. *)
Definition py_max (a b : Qc) : Qc := if Qcltb a b then b else a.
Definition py_min (a b : Qc) : Qc := if Qcltb b a then b else a.

(** ** Exceptions *)

Inductive exn : Set := ZeroDivisionError | KeyError | ValueError.

Inductive result (A : Type) : Type :=
| Ok (a : A)
| Raise (e : exn).
Arguments Ok {A} a.
Arguments Raise {A} e.

Definition bind {A B : Type} (c : result A) (k : A -> result B) : result B :=
  match c with
  | Ok a => k a
  | Raise e => Raise e
  end.

Notation "x <- c ;; k" := (bind c (fun x => k))
  (at level 61, c at next level, right associativity).

(** [x / y] on floats. *)
Definition fdiv (x y : Qc) : result Qc :=
  if Qc_eq_bool y 0 then Raise ZeroDivisionError else Ok (x / y).

(** [x ** n] for a float [x] and an int [n]. *)
Definition fpow (x : Qc) (n : Z) : result Qc :=
  if (0 <=? n)%Z then Ok (x ^ Z.to_nat n)
  else if Qc_eq_bool x 0 then Raise ZeroDivisionError
  else Ok (/ (x ^ Z.to_nat (- n))).

(** ** Helpers *)

Definition pct_to_dec (p : Qc) : Qc := p / qz 100.

Definition clamp_nonnegative (x : Qc) : Qc := py_max 0 x.

(** ** Data *)

Record Timestamp : Type := {
  origin : string;
  months_after : nat
}.

Module MonthRecord.
Record t : Type := {
  date : Timestamp;
  month_index : nat;
  effective_rent : Qc;
  expenses : Qc;
  mortgage_payment : Qc;
  interest : Qc;
  principal : Qc;
  balance : Qc;
  monthly_cash_flow : Qc;
  cumulative_cash_flow : Qc;
  property_value : Qc
}.
End MonthRecord.

Definition DataFrame := list MonthRecord.t.

Module Results.
Record t : Type := {
  monthly_mortgage : Qc;
  initial_cash_on_cash_percent : Qc;
  ending_monthly_cash_flow : Qc;
  cumulative_cash_flow : Qc;
  terminal_equity : Qc;
  total_invested_est : Qc;
  total_return_est : Qc;
  payback_month_on_upfront : option nat
}.
End Results.

Record PropertySim : Type := {
  purchase_price : Qc;
  down_payment_percent : Qc;
  annual_interest_percent : Qc;
  amort_years : Z;
  rental_type : string;
  monthly_rent : Qc;
  rent_growth_percent_per_year : Qc;
  vacancy_percent : Qc;
  nightly_rate : Qc;
  occupancy_percent : Qc;
  cleaning_fee_per_stay : Qc;
  avg_stay_length_nights : Qc;
  platform_fee_percent : Qc;
  tax_percent_of_price_per_year : Qc;
  insurance_percent_of_price_per_year : Qc;
  maintenance_percent_of_price_per_year : Qc;
  other_costs_monthly : Qc;
  years : Z;
  appreciation_percent_per_year : Qc;
  closing_costs_percent_of_price : Qc;
  start_date : string;
  (* internal fields, not set by the constructor *)
  df : option DataFrame;
  results : option Results.t
}.

(** ** Derived values *)

Section Derived.
Variable self : PropertySim.

Definition closing_costs : Qc :=
  purchase_price self * pct_to_dec (closing_costs_percent_of_price self).

Definition down_payment : Qc :=
  purchase_price self * pct_to_dec (down_payment_percent self).

Definition loan_amount : Qc :=
  clamp_nonnegative (purchase_price self - down_payment).

Definition total_upfront : Qc := down_payment + closing_costs.

Definition tax_yearly : Qc :=
  purchase_price self * pct_to_dec (tax_percent_of_price_per_year self).

Definition insurance_yearly : Qc :=
  purchase_price self * pct_to_dec (insurance_percent_of_price_per_year self).

Definition maintenance_yearly : Qc :=
  purchase_price self * pct_to_dec (maintenance_percent_of_price_per_year self).

Definition monthly_rate : Qc :=
  pct_to_dec (annual_interest_percent self) / qz 12.

Definition total_months : Z := (years self * 12)%Z.

Definition mortgage_payment_monthly (balance : option Qc) : result Qc :=
  let L := match balance with None => loan_amount | Some b => b end in
  let r := monthly_rate in
  let n := (amort_years self * 12)%Z in
  if Qc_eq_bool r 0 then fdiv L (qz n)
  else
    p <- fpow (1 + r) n ;;
    fdiv (L * (r * p)) (p - 1).

Definition calculate_monthly_revenue (base_rate : Qc) : result Qc :=
  if String.eqb (rental_type self) "short_term" then
    let days_per_month := qz 30 in
    let occupied_days := days_per_month * pct_to_dec (occupancy_percent self) in
    num_stays <- fdiv occupied_days (avg_stay_length_nights self) ;;
    let gross_monthly :=
      (base_rate * occupied_days) + (cleaning_fee_per_stay self * num_stays) in
    let net_monthly := gross_monthly * (1 - pct_to_dec (platform_fee_percent self)) in
    Ok net_monthly
  else
    Ok (base_rate * (1 - pct_to_dec (vacancy_percent self))).

Definition initial_cash_on_cash_percent : result Qc :=
  m <- (if String.eqb (rental_type self) "short_term"
        then calculate_monthly_revenue (nightly_rate self)
        else calculate_monthly_revenue (monthly_rent self)) ;;
  let eff_rent_year1 := m * qz 12 in
  let expenses_year1 :=
    tax_yearly + insurance_yearly + maintenance_yearly
    + (other_costs_monthly self * qz 12) in
  let noi_year1 := eff_rent_year1 - expenses_year1 in
  q <- fdiv noi_year1 total_upfront ;;
  Ok (q * qz 100).
End Derived.

(** ** Simulation *)

(** The local variables of [run] that the loop reads and rebinds. *)
Module St.
Record t : Type := {
  current_price : Qc;
  balance : Qc;
  mmtg : Qc;
  ts : list MonthRecord.t;
  date : Timestamp;
  monthly_tax : Qc;
  monthly_ins : Qc;
  monthly_maint : Qc;
  base_rate : Qc;
  cumulative_cf : Qc;
  cumulative_principal : Qc
}.
End St.

(** [date + pd.DateOffset(months=1)] *)
Definition next_month (d : Timestamp) : Timestamp :=
  {| origin := origin d; months_after := S (months_after d) |}.

(** One iteration of [for m in range(months)]. *)
Definition loop_body (self : PropertySim) (rent_growth appr : Qc)
    (m : nat) (s : St.t) : result St.t :=
  (* annual bumps at the start of each new year after month 0 *)
  let bump := ((0 <? m) && (m mod 12 =? 0))%nat in
  let base_rate :=
    if bump then St.base_rate s * (1 + rent_growth) else St.base_rate s in
  let current_price :=
    if bump then St.current_price s * (1 + appr) else St.current_price s in
  let monthly_tax :=
    if bump
    then (current_price * pct_to_dec (tax_percent_of_price_per_year self)) / qz 12
    else St.monthly_tax s in
  let monthly_ins :=
    if bump
    then (current_price * pct_to_dec (insurance_percent_of_price_per_year self)) / qz 12
    else St.monthly_ins s in
  let monthly_maint :=
    if bump
    then (current_price * pct_to_dec (maintenance_percent_of_price_per_year self)) / qz 12
    else St.monthly_maint s in
  (* income *)
  eff_rent <- calculate_monthly_revenue self base_rate ;;
  (* mortgage split *)
  let mmtg := St.mmtg s in
  let interest := St.balance s * monthly_rate self in
  let principal := py_min (mmtg - interest) (St.balance s) in
  let principal := clamp_nonnegative principal in
  let balance := clamp_nonnegative (St.balance s - principal) in
  (* expenses *)
  let expenses := monthly_tax + monthly_ins + monthly_maint + other_costs_monthly self in
  (* cash flow after debt service *)
  let monthly_cf := eff_rent - expenses - mmtg in
  let cumulative_cf := St.cumulative_cf s + monthly_cf in
  let cumulative_principal := St.cumulative_principal s + principal in
  let row :=
    {| MonthRecord.date := St.date s;
       MonthRecord.month_index := m;
       MonthRecord.effective_rent := eff_rent;
       MonthRecord.expenses := expenses;
       MonthRecord.mortgage_payment := mmtg;
       MonthRecord.interest := interest;
       MonthRecord.principal := principal;
       MonthRecord.balance := balance;
       MonthRecord.monthly_cash_flow := monthly_cf;
       MonthRecord.cumulative_cash_flow := cumulative_cf;
       MonthRecord.property_value := current_price |} in
  (* after payoff the mortgage payment becomes 0 *)
  let mmtg := if Qcleb balance 0 then 0 else mmtg in
  Ok {| St.current_price := current_price;
        St.balance := balance;
        St.mmtg := mmtg;
        St.ts := St.ts s ++ [row];
        St.date := next_month (St.date s);
        St.monthly_tax := monthly_tax;
        St.monthly_ins := monthly_ins;
        St.monthly_maint := monthly_maint;
        St.base_rate := base_rate;
        St.cumulative_cf := cumulative_cf;
        St.cumulative_principal := cumulative_principal |}.

(** [for m in range(start, start + count): s = body(m, s)] *)
Fixpoint for_range {S : Type} (body : nat -> S -> result S)
    (start count : nat) (s : S) : result S :=
  match count with
  | O => Ok s
  | Datatypes.S k => s' <- body start s ;; for_range body (Datatypes.S start) k s'
  end.

(** The variables as they stand when the loop is entered. *)
Definition loop_init (self : PropertySim) (mmtg : Qc) : St.t :=
  {| St.current_price := purchase_price self;
     St.balance := loan_amount self;
     St.mmtg := mmtg;
     St.ts := [];
     St.date := {| origin := start_date self; months_after := 0 |};
     St.monthly_tax := tax_yearly self / qz 12;
     St.monthly_ins := insurance_yearly self / qz 12;
     St.monthly_maint := maintenance_yearly self / qz 12;
     St.base_rate :=
       if String.eqb (rental_type self) "short_term"
       then nightly_rate self else monthly_rent self;
     St.cumulative_cf := 0;
     St.cumulative_principal := 0 |}.

(** The loop of [run], stopped after [count] iterations. *)
Definition simulate (self : PropertySim) (count : nat) : result St.t :=
  mmtg <- mortgage_payment_monthly self None ;;
  for_range
    (loop_body self (pct_to_dec (rent_growth_percent_per_year self))
               (pct_to_dec (appreciation_percent_per_year self)))
    0 count (loop_init self mmtg).

(** [df[col].iloc[0]]: a frame built from an empty list has no columns. *)
Definition iloc_first {A : Type} (col : MonthRecord.t -> A) (d : DataFrame) : result A :=
  match d with
  | [] => Raise KeyError
  | r :: _ => Ok (col r)
  end.

(** [df[col].iloc[-1]] *)
Definition iloc_last {A : Type} (col : MonthRecord.t -> A) (d : DataFrame) : result A :=
  match rev d with
  | [] => Raise KeyError
  | r :: _ => Ok (col r)
  end.

(** [np.where(values >= bound)[0]], first element if any. *)
Fixpoint first_index_ge (values : list Qc) (bound : Qc) (i : nat) : option nat :=
  match values with
  | [] => None
  | v :: rest => if Qcleb bound v then Some i else first_index_ge rest bound (S i)
  end.

Definition run (self : PropertySim) : result (DataFrame * PropertySim) :=
  let months := total_months self in
  s <- simulate self (Z.to_nat months) ;;
  let frame := St.ts s in
  let cumulative_cf := St.cumulative_cf s in
  (* basic summary metrics *)
  let upfront := total_upfront self in
  let neg_cf := py_min 0 cumulative_cf in
  let total_invested := upfront + Qcabs neg_cf in
  let terminal_equity := St.current_price s - St.balance s in
  let total_return :=
    terminal_equity - (purchase_price self - down_payment self) + cumulative_cf in
  first_cum <- iloc_first MonthRecord.cumulative_cash_flow frame ;;
  let payback_month :=
    if Qcleb 0 first_cum then Some O
    else first_index_ge (map MonthRecord.cumulative_cash_flow frame) upfront 0 in
  mm <- mortgage_payment_monthly self None ;;
  coc <- initial_cash_on_cash_percent self ;;
  last_cf <- iloc_last MonthRecord.monthly_cash_flow frame ;;
  let res :=
    {| Results.monthly_mortgage := mm;
       Results.initial_cash_on_cash_percent := coc;
       Results.ending_monthly_cash_flow := last_cf;
       Results.cumulative_cash_flow := cumulative_cf;
       Results.terminal_equity := terminal_equity;
       Results.total_invested_est := total_invested;
       Results.total_return_est := total_return;
       Results.payback_month_on_upfront := payback_month |} in
  Ok (frame,
      {| purchase_price := purchase_price self;
         down_payment_percent := down_payment_percent self;
         annual_interest_percent := annual_interest_percent self;
         amort_years := amort_years self;
         rental_type := rental_type self;
         monthly_rent := monthly_rent self;
         rent_growth_percent_per_year := rent_growth_percent_per_year self;
         vacancy_percent := vacancy_percent self;
         nightly_rate := nightly_rate self;
         occupancy_percent := occupancy_percent self;
         cleaning_fee_per_stay := cleaning_fee_per_stay self;
         avg_stay_length_nights := avg_stay_length_nights self;
         platform_fee_percent := platform_fee_percent self;
         tax_percent_of_price_per_year := tax_percent_of_price_per_year self;
         insurance_percent_of_price_per_year := insurance_percent_of_price_per_year self;
         maintenance_percent_of_price_per_year := maintenance_percent_of_price_per_year self;
         other_costs_monthly := other_costs_monthly self;
         years := years self;
         appreciation_percent_per_year := appreciation_percent_per_year self;
         closing_costs_percent_of_price := closing_costs_percent_of_price self;
         start_date := start_date self;
         df := Some frame;
         results := Some res |}).

(** [kpis]: runs the simulation only when [results] is still empty. *)
Definition kpis (self : PropertySim) : result (Results.t * PropertySim) :=
  match results self with
  | Some r => Ok (r, self)
  | None =>
      out <- run self ;;
      match results (snd out) with
      | Some r => Ok (r, snd out)
      | None => Raise KeyError
      end
  end.

(** ** Down-payment sweep *)

Module SweepRow.
Record t : Type := {
  down_payment_percentage : Qc;
  down_payment : Qc;
  monthly_cash_flow : Qc;
  effective_rent : Qc;
  monthly_expenses : Qc;
  monthly_mortgage : Qc;
  initial_coc_percent : Qc;
  cumulative_cf : Qc;
  terminal_equity : Qc
}.
End SweepRow.

(** [dataclasses.replace(sim, down_payment_percent=p)]: the constructor is
    called again, so the fields it does not take are back to their defaults. *)
Definition replace_down_payment_percent (sim : PropertySim) (p : Qc) : PropertySim :=
  {| purchase_price := purchase_price sim;
     down_payment_percent := p;
     annual_interest_percent := annual_interest_percent sim;
     amort_years := amort_years sim;
     rental_type := rental_type sim;
     monthly_rent := monthly_rent sim;
     rent_growth_percent_per_year := rent_growth_percent_per_year sim;
     vacancy_percent := vacancy_percent sim;
     nightly_rate := nightly_rate sim;
     occupancy_percent := occupancy_percent sim;
     cleaning_fee_per_stay := cleaning_fee_per_stay sim;
     avg_stay_length_nights := avg_stay_length_nights sim;
     platform_fee_percent := platform_fee_percent sim;
     tax_percent_of_price_per_year := tax_percent_of_price_per_year sim;
     insurance_percent_of_price_per_year := insurance_percent_of_price_per_year sim;
     maintenance_percent_of_price_per_year := maintenance_percent_of_price_per_year sim;
     other_costs_monthly := other_costs_monthly sim;
     years := years sim;
     appreciation_percent_per_year := appreciation_percent_per_year sim;
     closing_costs_percent_of_price := closing_costs_percent_of_price sim;
     start_date := start_date sim;
     df := None;
     results := None |}.

(** [np.linspace(start, stop, num)] with the default [endpoint=True]. *)
Definition set_last (l : list Qc) (v : Qc) : list Qc :=
  match rev l with
  | [] => []
  | _ :: r => rev r ++ [v]
  end.

Definition linspace (start stop : Qc) (num : Z) : result (list Qc) :=
  if (num <? 0)%Z then Raise ValueError
  else
    let div := (num - 1)%Z in
    let delta := stop - start in
    let y := map (fun i => qz (Z.of_nat i)) (seq 0 (Z.to_nat num)) in
    let y :=
      if (0 <? div)%Z
      then map (fun v => v * (delta / qz div) + start) y
      else map (fun v => v * delta + start) y in
    Ok (if (1 <? num)%Z then set_last y stop else y).

(** The body of the sweep loop up to [results.append]: one engine run and
    the row read off it. *)
Definition sweep_sample (base_sim : PropertySim) (p : Qc) : result SweepRow.t :=
  let sim := replace_down_payment_percent base_sim p in
  out <- run sim ;;
  let frame := fst out in
  k <- kpis (snd out) ;;
  let kp := fst k in
  monthly_cashflow <- iloc_first MonthRecord.monthly_cash_flow frame ;;
  let dp := down_payment sim in
  effective_rent <- iloc_first MonthRecord.effective_rent frame ;;
  monthly_expenses <- iloc_first MonthRecord.expenses frame ;;
  monthly_mortgage <- iloc_first MonthRecord.mortgage_payment frame ;;
  Ok {| SweepRow.down_payment_percentage := p;
        SweepRow.down_payment := dp;
        SweepRow.monthly_cash_flow := monthly_cashflow;
        SweepRow.effective_rent := effective_rent;
        SweepRow.monthly_expenses := monthly_expenses;
        SweepRow.monthly_mortgage := monthly_mortgage;
        SweepRow.initial_coc_percent := Results.initial_cash_on_cash_percent kp;
        SweepRow.cumulative_cf := Results.cumulative_cash_flow kp;
        SweepRow.terminal_equity := Results.terminal_equity kp |}.

(** [for idx, p in enumerate(down_payment_range): ...; if cf > 0: break] *)
Fixpoint sweep_loop (base_sim : PropertySim) (range : list Qc)
    (acc : list SweepRow.t) : result (list SweepRow.t) :=
  match range with
  | [] => Ok acc
  | p :: rest =>
      row <- sweep_sample base_sim p ;;
      let acc := acc ++ [row] in
      if Qcltb 0 (SweepRow.monthly_cash_flow row) then Ok acc
      else sweep_loop base_sim rest acc
  end.

(** [results_df[results_df['monthly_cash_flow'] > 0]] *)
Definition positive_rows (rows : list SweepRow.t) : result (list SweepRow.t) :=
  match rows with
  | [] => Raise KeyError
  | _ => Ok (filter (fun r => Qcltb 0 (SweepRow.monthly_cash_flow r)) rows)
  end.

Definition down_payment_for_cashflow (base_sim : PropertySim)
    (upper_limit lower_limit : Qc) (num_simulations : Z)
  : result (list SweepRow.t * option Qc * option Qc) :=
  down_payment_range <- linspace lower_limit upper_limit num_simulations ;;
  rows <- sweep_loop base_sim down_payment_range [] ;;
  positive_cf <- positive_rows rows ;;
  match positive_cf with
  | r :: _ =>
      Ok (rows, Some (SweepRow.down_payment r),
          Some (SweepRow.down_payment_percentage r))
  | [] => Ok (rows, None, None)
  end.

(** ** The mortgage split on binary64 floats

    The loan amount, the payment and the lines of the loop that split the
    payment and update the balance, with the arithmetic of Python floats.
    [pow_nat] stands for [**] by repeated multiplication; the C library may
    round [**] differently, and the lemma on this module uses a rate of 0,
    for which the payment is [L / n] and [**] is not called. *)

Module Binary64.
Import PrimFloat.
Local Open Scope float_scope.

Definition pct_to_dec (p : float) : float := p / 100.

Definition clamp_nonnegative (x : float) : float := if 0 <? x then x else 0.

Definition py_min (a b : float) : float := if b <? a then b else a.

Definition of_int (z : Z) : float := of_uint63 (Uint63.of_Z z).

Fixpoint pow_nat (x : float) (n : nat) : float :=
  match n with
  | O => 1
  | S k => x * pow_nat x k
  end.

Record row : Type := {
  mortgage_payment : float;
  interest : float;
  principal : float;
  balance : float
}.

Definition loan_amount (purchase_price down_payment_percent : float) : float :=
  clamp_nonnegative (purchase_price - purchase_price * pct_to_dec down_payment_percent).

Definition monthly_rate (annual_interest_percent : float) : float :=
  pct_to_dec annual_interest_percent / 12.

Definition mortgage_payment_monthly (L r : float) (amort_years : Z) : float :=
  let n := (amort_years * 12)%Z in
  if r =? 0 then L / of_int n
  else L * (r * pow_nat (1 + r) (Z.to_nat n)) / (pow_nat (1 + r) (Z.to_nat n) - 1).

(** The mortgage columns of the rows appended by [months] iterations that
    start from the balance [bal] and the payment [mmtg]. *)
Fixpoint split_loop (months : nat) (r bal mmtg : float) : list row :=
  match months with
  | O => []
  | S k =>
      let interest := bal * r in
      let principal := py_min (mmtg - interest) bal in
      let principal := clamp_nonnegative principal in
      let bal' := clamp_nonnegative (bal - principal) in
      {| mortgage_payment := mmtg;
         interest := interest;
         principal := principal;
         balance := bal' |}
      :: split_loop k r bal' (if bal' <=? 0 then 0 else mmtg)
  end.

Definition schedule (purchase_price down_payment_percent annual_interest_percent : float)
    (amort_years years : Z) : list row :=
  let L := loan_amount purchase_price down_payment_percent in
  let r := monthly_rate annual_interest_percent in
  split_loop (Z.to_nat (years * 12)) r L (mortgage_payment_monthly L r amort_years).

(** 100000 borrowed in full at 0% over one year, simulated for two years. *)
Definition zero_rate_schedule : list row := schedule 100000 0 0 1 2.
End Binary64.

(** ** Valid configurations *)

Definition is_percent (p : Qc) : Prop := 0 <= p /\ p <= qz 100.

Record valid (c : PropertySim) : Prop := {
  valid_price : 0 < purchase_price c;
  valid_amort : (0 < amort_years c)%Z;
  valid_years : (0 < years c)%Z;
  valid_type : rental_type c = "long_term"%string \/ rental_type c = "short_term"%string;
  valid_down : is_percent (down_payment_percent c);
  valid_interest : is_percent (annual_interest_percent c);
  valid_growth : is_percent (rent_growth_percent_per_year c);
  valid_vacancy : is_percent (vacancy_percent c);
  valid_occupancy : is_percent (occupancy_percent c);
  valid_platform : is_percent (platform_fee_percent c);
  valid_tax : is_percent (tax_percent_of_price_per_year c);
  valid_insurance : is_percent (insurance_percent_of_price_per_year c);
  valid_maintenance : is_percent (maintenance_percent_of_price_per_year c);
  valid_appreciation : is_percent (appreciation_percent_per_year c);
  valid_closing : is_percent (closing_costs_percent_of_price c)
}.

(** ** Definitions used by the statements *)

(** [1 + q + ... + q^(k-1)] *)
Fixpoint annuity (q : Qc) (k : nat) : Qc :=
  match k with
  | O => 0
  | S j => q * annuity q j + 1
  end.

(** Balance of a loan [L] after [k] payments [P], with [q = 1 + r]. *)
Definition ideal_balance (L P q : Qc) (k : nat) : Qc :=
  L * q ^ k - P * annuity q k.

(** Number of scheduled payments, [n = amort_years * 12]. *)
Definition term_months (c : PropertySim) : nat := Z.to_nat (amort_years c * 12).

(** The loop body of [run] for the configuration [c]. *)
Definition body_of (c : PropertySim) : nat -> St.t -> result St.t :=
  loop_body c (pct_to_dec (rent_growth_percent_per_year c))
            (pct_to_dec (appreciation_percent_per_year c)).

(** [m > 0 and m % 12 == 0] *)
Definition year_boundary (m : nat) : bool := ((0 <? m) && (m mod 12 =? 0))%nat.

(** What one iteration does, field by field. *)
Record month_step (c : PropertySim) (m : nat) (s s' : St.t) (row : MonthRecord.t) : Prop := {
  step_ts : St.ts s' = St.ts s ++ [row];
  step_index : MonthRecord.month_index row = m;
  step_payment : MonthRecord.mortgage_payment row = St.mmtg s;
  step_interest : MonthRecord.interest row = St.balance s * monthly_rate c;
  step_principal :
    MonthRecord.principal row
    = clamp_nonnegative
        (py_min (St.mmtg s - St.balance s * monthly_rate c) (St.balance s));
  step_balance :
    St.balance s' = clamp_nonnegative (St.balance s - MonthRecord.principal row);
  step_row_balance : MonthRecord.balance row = St.balance s';
  step_mmtg : St.mmtg s' = if Qcleb (St.balance s') 0 then 0 else St.mmtg s;
  step_value : MonthRecord.property_value row = St.current_price s';
  step_rent :
    calculate_monthly_revenue c (St.base_rate s') = Ok (MonthRecord.effective_rent row);
  step_expenses :
    MonthRecord.expenses row
    = St.monthly_tax s' + St.monthly_ins s' + St.monthly_maint s'
      + other_costs_monthly c;
  step_cash_flow :
    MonthRecord.monthly_cash_flow row
    = MonthRecord.effective_rent row - MonthRecord.expenses row - St.mmtg s;
  step_cumulative :
    MonthRecord.cumulative_cash_flow row
    = St.cumulative_cf s + MonthRecord.monthly_cash_flow row;
  step_cumulative_cf : St.cumulative_cf s' = MonthRecord.cumulative_cash_flow row;
  step_base_rate :
    St.base_rate s'
    = if year_boundary m
      then St.base_rate s * (1 + pct_to_dec (rent_growth_percent_per_year c))
      else St.base_rate s;
  step_price :
    St.current_price s'
    = if year_boundary m
      then St.current_price s * (1 + pct_to_dec (appreciation_percent_per_year c))
      else St.current_price s;
  step_tax :
    St.monthly_tax s'
    = if year_boundary m
      then (St.current_price s' * pct_to_dec (tax_percent_of_price_per_year c)) / qz 12
      else St.monthly_tax s;
  step_ins :
    St.monthly_ins s'
    = if year_boundary m
      then (St.current_price s' * pct_to_dec (insurance_percent_of_price_per_year c)) / qz 12
      else St.monthly_ins s;
  step_maint :
    St.monthly_maint s'
    = if year_boundary m
      then (St.current_price s' * pct_to_dec (maintenance_percent_of_price_per_year c)) / qz 12
      else St.monthly_maint s
}.

(** Balance before the payment of month [m]. *)
Definition balance_before (c : PropertySim) (d : DataFrame) (m : nat) : Qc :=
  match m with
  | O => loan_amount c
  | S j => match nth_error d j with
           | Some prev => MonthRecord.balance prev
           | None => 0
           end
  end.

(** The loan is paid off once some recorded balance is no longer positive. *)
Definition paid_off (rows : list MonthRecord.t) : bool :=
  existsb (fun r => Qcleb (MonthRecord.balance r) 0) rows.

(** The rate that revenue starts from: [nightly_rate] or [monthly_rent]. *)
Definition initial_base_rate (c : PropertySim) : Qc :=
  if String.eqb (rental_type c) "short_term" then nightly_rate c else monthly_rent c.

(** Price and base rate in force during month [m]. *)
Definition price_in_month (c : PropertySim) (m : nat) : Qc :=
  purchase_price c * (1 + pct_to_dec (appreciation_percent_per_year c)) ^ (m / 12).

Definition base_rate_in_month (c : PropertySim) (m : nat) : Qc :=
  initial_base_rate c * (1 + pct_to_dec (rent_growth_percent_per_year c)) ^ (m / 12).

Definition revenue_defined (c : PropertySim) : Prop :=
  rental_type c = "short_term"%string -> avg_stay_length_nights c <> 0.

(** The [i]-th of [n] evenly spaced points from [lower] to [upper]. *)
Definition sample_point (lower upper : Qc) (n : Z) (i : nat) : Qc :=
  lower + qz (Z.of_nat i) * ((upper - lower) / qz (n - 1)).

(** The row that [down_payment_for_cashflow] records for the percentage [p]:
    first-month figures of the frame [d], three figures of the summary. *)
Definition row_of_run (base_sim : PropertySim) (p : Qc)
    (r0 : MonthRecord.t) (res : Results.t) : SweepRow.t :=
  {| SweepRow.down_payment_percentage := p;
     SweepRow.down_payment := purchase_price base_sim * (p / qz 100);
     SweepRow.monthly_cash_flow := MonthRecord.monthly_cash_flow r0;
     SweepRow.effective_rent := MonthRecord.effective_rent r0;
     SweepRow.monthly_expenses := MonthRecord.expenses r0;
     SweepRow.monthly_mortgage := MonthRecord.mortgage_payment r0;
     SweepRow.initial_coc_percent := Results.initial_cash_on_cash_percent res;
     SweepRow.cumulative_cf := Results.cumulative_cash_flow res;
     SweepRow.terminal_equity := Results.terminal_equity res |}.

Definition positive_row (r : SweepRow.t) : bool := Qcltb 0 (SweepRow.monthly_cash_flow r).

(** A long-term rental bought at 300000 with 20% down at 5% over one year of
    amortization, simulated for two years. *)
Definition reference_config : PropertySim :=
  {| purchase_price := qz 300000;
     down_payment_percent := qz 20;
     annual_interest_percent := qz 5;
     amort_years := 1;
     rental_type := "long_term";
     monthly_rent := qz 2200;
     rent_growth_percent_per_year := qz 2;
     vacancy_percent := qz 5;
     nightly_rate := 0;
     occupancy_percent := qz 65;
     cleaning_fee_per_stay := qz 100;
     avg_stay_length_nights := qz 3;
     platform_fee_percent := qz 15;
     tax_percent_of_price_per_year := Q2Qc (12 # 10);
     insurance_percent_of_price_per_year := Q2Qc (6 # 10);
     maintenance_percent_of_price_per_year := qz 1;
     other_costs_monthly := 0;
     years := 2;
     appreciation_percent_per_year := qz 3;
     closing_costs_percent_of_price := qz 2;
     start_date := "2025-01-01";
     df := None;
     results := None |}.

(** The same purchase paid in full: [down_payment_percent = 100]. *)
Definition full_down_config : PropertySim :=
  replace_down_payment_percent reference_config (qz 100).

(** A purchase with nothing paid up front: no down payment, no closing costs. *)
Definition zero_upfront_config : PropertySim :=
  {| purchase_price := qz 300000;
     down_payment_percent := 0;
     annual_interest_percent := qz 5;
     amort_years := 1;
     rental_type := "long_term";
     monthly_rent := qz 2200;
     rent_growth_percent_per_year := qz 2;
     vacancy_percent := qz 5;
     nightly_rate := 0;
     occupancy_percent := qz 65;
     cleaning_fee_per_stay := qz 100;
     avg_stay_length_nights := qz 3;
     platform_fee_percent := qz 15;
     tax_percent_of_price_per_year := Q2Qc (12 # 10);
     insurance_percent_of_price_per_year := Q2Qc (6 # 10);
     maintenance_percent_of_price_per_year := qz 1;
     other_costs_monthly := 0;
     years := 1;
     appreciation_percent_per_year := qz 3;
     closing_costs_percent_of_price := 0;
     start_date := "2025-01-01";
     df := None;
     results := None |}.


(** C3 as the specification words it: one positive constant up to and
    including the first month with balance 0, and 0 after it. *)
Definition payment_profile (d : DataFrame) (P : Qc) : Prop :=
  forall m row, nth_error d m = Some row ->
    ((exists j prev, (j < m)%nat /\ nth_error d j = Some prev /\
                     MonthRecord.balance prev = 0) ->
     MonthRecord.mortgage_payment row = 0) /\
    ((forall j prev, (j < m)%nat -> nth_error d j = Some prev ->
                     MonthRecord.balance prev <> 0) ->
     MonthRecord.mortgage_payment row = P).

Definition positive_payment_profile (d : DataFrame) : Prop :=
  exists P, 0 < P /\ payment_profile d P.



(** ** Definitions used by the further properties *)

(** Sum of a column over rows. *)
Fixpoint column_sum (col : MonthRecord.t -> Qc) (rows : list MonthRecord.t) : Qc :=
  match rows with
  | [] => 0
  | r :: rest => col r + column_sum col rest
  end.

(** The fields of a configuration that a run reads when the rental type is
    not short_term. *)
Record agree_long_term (c1 c2 : PropertySim) : Prop := {
  agree_price : purchase_price c1 = purchase_price c2;
  agree_down : down_payment_percent c1 = down_payment_percent c2;
  agree_interest : annual_interest_percent c1 = annual_interest_percent c2;
  agree_amort : amort_years c1 = amort_years c2;
  agree_rent : monthly_rent c1 = monthly_rent c2;
  agree_growth : rent_growth_percent_per_year c1 = rent_growth_percent_per_year c2;
  agree_vacancy : vacancy_percent c1 = vacancy_percent c2;
  agree_tax : tax_percent_of_price_per_year c1 = tax_percent_of_price_per_year c2;
  agree_insurance :
    insurance_percent_of_price_per_year c1 = insurance_percent_of_price_per_year c2;
  agree_maintenance :
    maintenance_percent_of_price_per_year c1 = maintenance_percent_of_price_per_year c2;
  agree_other : other_costs_monthly c1 = other_costs_monthly c2;
  agree_years : years c1 = years c2;
  agree_appreciation : appreciation_percent_per_year c1 = appreciation_percent_per_year c2;
  agree_closing : closing_costs_percent_of_price c1 = closing_costs_percent_of_price c2;
  agree_start : start_date c1 = start_date c2
}.

(** The reference purchase listed under a rental type that the engine does
    not know, with other short-term figures and a stay length of 0. *)
Definition vacation_config : PropertySim :=
  {| purchase_price := qz 300000;
     down_payment_percent := qz 20;
     annual_interest_percent := qz 5;
     amort_years := 1;
     rental_type := "vacation";
     monthly_rent := qz 2200;
     rent_growth_percent_per_year := qz 2;
     vacancy_percent := qz 5;
     nightly_rate := qz 180;
     occupancy_percent := qz 80;
     cleaning_fee_per_stay := qz 50;
     avg_stay_length_nights := 0;
     platform_fee_percent := qz 3;
     tax_percent_of_price_per_year := Q2Qc (12 # 10);
     insurance_percent_of_price_per_year := Q2Qc (6 # 10);
     maintenance_percent_of_price_per_year := qz 1;
     other_costs_monthly := 0;
     years := 2;
     appreciation_percent_per_year := qz 3;
     closing_costs_percent_of_price := qz 2;
     start_date := "2025-01-01";
     df := None;
     results := None |}.

(** ** The plot of a sweep

    [create_down_payment_plot] draws with matplotlib; the two computations
    it makes on the frame are modelled: the rows it marks as break-even and
    the rows it puts a tick at. *)


(** [x * y] and [v <= 0] on a column that may hold NaN: a product with NaN
    is NaN, and a comparison with NaN is false. *)
Definition mul_nan (x : Qc) (y : option Qc) : option Qc :=
  match y with
  | Some v => Some (x * v)
  | None => None
  end.

Definition le0_nan (v : option Qc) : bool :=
  match v with
  | Some x => Qcleb x 0
  | None => false
  end.



(** [num_ticks = min(8, len(df))] and, when [num_ticks > 1],
    [np.linspace(0, len(df) - 1, num_ticks, dtype=int)]: the sample points
    rounded down.  [None] when no ticks are set. *)
Definition tick_indices (rows : list SweepRow.t) : result (option (list Z)) :=
  let len := Z.of_nat (List.length rows) in
  let num_ticks := Z.min 8 len in
  if (1 <? num_ticks)%Z then
    y <- linspace 0 (qz (len - 1)) num_ticks ;;
    Ok (Some (map (fun v => Qfloor (this v)) y))
  else Ok None.

(** The rows that [zero_crossings] marks when the value shifted into the
    first row is [prev]; the frame itself starts from NaN. *)
Fixpoint crossings_after (prev : option Qc) (rows : list SweepRow.t) : list SweepRow.t :=
  match rows with
  | [] => []
  | r :: rest =>
      (if le0_nan (mul_nan (SweepRow.monthly_cash_flow r) prev) then [r] else [])
      ++ crossings_after (Some (SweepRow.monthly_cash_flow r)) rest
  end.

(** The fields of a configuration that a short-term run reads. *)
Record agree_short_term (c1 c2 : PropertySim) : Prop := {
  st_price : purchase_price c1 = purchase_price c2;
  st_down : down_payment_percent c1 = down_payment_percent c2;
  st_interest : annual_interest_percent c1 = annual_interest_percent c2;
  st_amort : amort_years c1 = amort_years c2;
  st_growth : rent_growth_percent_per_year c1 = rent_growth_percent_per_year c2;
  st_nightly : nightly_rate c1 = nightly_rate c2;
  st_occupancy : occupancy_percent c1 = occupancy_percent c2;
  st_cleaning : cleaning_fee_per_stay c1 = cleaning_fee_per_stay c2;
  st_stay : avg_stay_length_nights c1 = avg_stay_length_nights c2;
  st_platform : platform_fee_percent c1 = platform_fee_percent c2;
  st_tax : tax_percent_of_price_per_year c1 = tax_percent_of_price_per_year c2;
  st_insurance :
    insurance_percent_of_price_per_year c1 = insurance_percent_of_price_per_year c2;
  st_maintenance :
    maintenance_percent_of_price_per_year c1 = maintenance_percent_of_price_per_year c2;
  st_other : other_costs_monthly c1 = other_costs_monthly c2;
  st_years : years c1 = years c2;
  st_appreciation : appreciation_percent_per_year c1 = appreciation_percent_per_year c2;
  st_closing : closing_costs_percent_of_price c1 = closing_costs_percent_of_price c2;
  st_start : start_date c1 = start_date c2
}.

(** The reference purchase let by the night, and the same listing with
    another monthly rent and vacancy on file. *)
Definition short_term_config : PropertySim :=
  {| purchase_price := qz 300000;
     down_payment_percent := qz 20;
     annual_interest_percent := qz 5;
     amort_years := 1;
     rental_type := "short_term";
     monthly_rent := qz 2200;
     rent_growth_percent_per_year := qz 2;
     vacancy_percent := qz 5;
     nightly_rate := qz 180;
     occupancy_percent := qz 65;
     cleaning_fee_per_stay := qz 100;
     avg_stay_length_nights := qz 3;
     platform_fee_percent := qz 15;
     tax_percent_of_price_per_year := Q2Qc (12 # 10);
     insurance_percent_of_price_per_year := Q2Qc (6 # 10);
     maintenance_percent_of_price_per_year := qz 1;
     other_costs_monthly := 0;
     years := 2;
     appreciation_percent_per_year := qz 3;
     closing_costs_percent_of_price := qz 2;
     start_date := "2025-01-01";
     df := None;
     results := None |}.

Definition short_term_config_other_rent : PropertySim :=
  {| purchase_price := qz 300000;
     down_payment_percent := qz 20;
     annual_interest_percent := qz 5;
     amort_years := 1;
     rental_type := "short_term";
     monthly_rent := 0;
     rent_growth_percent_per_year := qz 2;
     vacancy_percent := qz 50;
     nightly_rate := qz 180;
     occupancy_percent := qz 65;
     cleaning_fee_per_stay := qz 100;
     avg_stay_length_nights := qz 3;
     platform_fee_percent := qz 15;
     tax_percent_of_price_per_year := Q2Qc (12 # 10);
     insurance_percent_of_price_per_year := Q2Qc (6 # 10);
     maintenance_percent_of_price_per_year := qz 1;
     other_costs_monthly := 0;
     years := 2;
     appreciation_percent_per_year := qz 3;
     closing_costs_percent_of_price := qz 2;
     start_date := "2025-01-01";
     df := None;
     results := None |}.

(** * Proofs *)

(** ** Arithmetic on canonical rationals *)

Lemma Qc_eq_Qeq (x y : Qc) : x = y <-> (x == y)%Q.
Proof.
  split; intro H.
  - rewrite H. reflexivity.
  - apply Qc_is_canon. exact H.
Qed.

Lemma this_plus (x y : Qc) : (this (x + y) == this x + this y)%Q.
Proof. apply Qred_correct. Qed.

Lemma this_mult (x y : Qc) : (this (x * y) == this x * this y)%Q.
Proof. apply Qred_correct. Qed.

Lemma this_opp (x : Qc) : (this (- x) == - this x)%Q.
Proof. apply Qred_correct. Qed.

Lemma this_minus (x y : Qc) : (this (x - y) == this x - this y)%Q.
Proof. unfold Qcminus. rewrite this_plus, this_opp. reflexivity. Qed.

Lemma this_inv (x : Qc) : (this (/ x) == / this x)%Q.
Proof. apply Qred_correct. Qed.

Lemma this_div (x y : Qc) : (this (x / y) == this x / this y)%Q.
Proof. unfold Qcdiv. rewrite this_mult, this_inv. reflexivity. Qed.

Lemma this_qz (z : Z) : (this (qz z) == z # 1)%Q.
Proof. apply Qred_correct. Qed.

Lemma this_0 : (this 0 == 0)%Q.
Proof. reflexivity. Qed.

Lemma this_1 : (this 1 == 1)%Q.
Proof. reflexivity. Qed.

Create Rewrite HintDb qc2q_db.
#[export] Hint Rewrite this_plus this_mult this_opp this_minus this_inv this_div
  this_qz this_0 this_1 : qc2q_db.

(** Moves a goal on [Qc], with its hypotheses, to [Q], where [lra], [nra]
    and [field] apply. *)
Ltac qc_inv_consts :=
  repeat match goal with
  | |- context [Qinv (Qmake ?a ?b)] =>
      let v := eval compute in (Qinv (Qmake a b)) in
      change (Qinv (Qmake a b)) with v
  | H : context [Qinv (Qmake ?a ?b)] |- _ =>
      let v := eval compute in (Qinv (Qmake a b)) in
      change (Qinv (Qmake a b)) with v in H
  end.

Ltac qc2q :=
  repeat match goal with
  | H : @eq Qc _ _ |- _ => apply Qc_eq_Qeq in H
  | H : ~ @eq Qc _ _ |- _ => rewrite Qc_eq_Qeq in H
  end;
  try match goal with
  | |- @eq Qc _ _ => apply Qc_is_canon
  | |- ~ @eq Qc _ _ => rewrite Qc_eq_Qeq
  end;
  unfold Qcle, Qclt in *;
  autorewrite with qc2q_db in *;
  unfold Qdiv in *;
  qc_inv_consts.

Lemma Qcltb_true (x y : Qc) : Qcltb x y = true <-> x < y.
Proof.
  unfold Qcltb. rewrite Qclt_alt.
  destruct (x ?= y); split; intro H; congruence.
Qed.

Lemma Qcltb_false (x y : Qc) : Qcltb x y = false <-> y <= x.
Proof.
  split; intro H.
  - apply Qcnot_lt_le. intro L. apply Qcltb_true in L. congruence.
  - destruct (Qcltb x y) eqn:E; [| reflexivity].
    apply Qcltb_true in E. exfalso. exact (Qcle_not_lt _ _ H E).
Qed.

Lemma Qcleb_true (x y : Qc) : Qcleb x y = true <-> x <= y.
Proof.
  unfold Qcleb. rewrite Qcle_alt.
  destruct (x ?= y); split; intro H; congruence.
Qed.

Lemma Qcleb_false (x y : Qc) : Qcleb x y = false <-> y < x.
Proof.
  split; intro H.
  - apply Qcnot_le_lt. intro L. apply Qcleb_true in L. congruence.
  - destruct (Qcleb x y) eqn:E; [| reflexivity].
    apply Qcleb_true in E. exfalso. exact (Qclt_not_le _ _ H E).
Qed.

Lemma Qc_eq_bool_true (x y : Qc) : Qc_eq_bool x y = true <-> x = y.
Proof.
  unfold Qc_eq_bool. destruct (Qc_eq_dec x y); split; intro; congruence.
Qed.

Lemma Qc_eq_bool_false (x y : Qc) : Qc_eq_bool x y = false <-> x <> y.
Proof.
  unfold Qc_eq_bool. destruct (Qc_eq_dec x y); split; intro; congruence.
Qed.

Lemma py_max_cases (a b : Qc) :
  (a < b /\ py_max a b = b) \/ (b <= a /\ py_max a b = a).
Proof.
  unfold py_max. destruct (Qcltb a b) eqn:E.
  - left. apply Qcltb_true in E. auto.
  - right. apply Qcltb_false in E. auto.
Qed.

Lemma py_min_cases (a b : Qc) :
  (b < a /\ py_min a b = b) \/ (a <= b /\ py_min a b = a).
Proof.
  unfold py_min. destruct (Qcltb b a) eqn:E.
  - left. apply Qcltb_true in E. auto.
  - right. apply Qcltb_false in E. auto.
Qed.

Lemma clamp_nonneg (x : Qc) : 0 <= clamp_nonnegative x.
Proof.
  unfold clamp_nonnegative.
  destruct (py_max_cases 0 x) as [[H E] | [H E]]; rewrite E.
  - apply Qclt_le_weak. exact H.
  - apply Qcle_refl.
Qed.

Lemma clamp_id (x : Qc) : 0 <= x -> clamp_nonnegative x = x.
Proof.
  intro H. unfold clamp_nonnegative.
  destruct (py_max_cases 0 x) as [[_ E] | [H' E]]; rewrite E.
  - reflexivity.
  - apply Qcle_antisym; assumption.
Qed.

Lemma clamp_neg (x : Qc) : x <= 0 -> clamp_nonnegative x = 0.
Proof.
  intro H. unfold clamp_nonnegative.
  destruct (py_max_cases 0 x) as [[H' E] | [_ E]]; rewrite E.
  - exfalso. exact (Qcle_not_lt _ _ H H').
  - reflexivity.
Qed.


Lemma qz_nonzero (z : Z) : (z <> 0)%Z -> qz z <> 0.
Proof.
  intros H E. qc2q. unfold Qeq in E. simpl in E. lia.
Qed.

Lemma Qcpower_pos_lt (q : Qc) (n : nat) : 0 < q -> 0 < q ^ n.
Proof.
  intro H. induction n as [| n IH]; simpl.
  - qc2q. lra.
  - qc2q. nra.
Qed.

Lemma Qcpower_ge_1 (q : Qc) (n : nat) : 1 <= q -> 1 <= q ^ n.
Proof.
  intro H. induction n as [| n IH]; simpl.
  - apply Qcle_refl.
  - qc2q. nra.
Qed.

Lemma Qcpower_gt_1 (q : Qc) (n : nat) : 1 < q -> (0 < n)%nat -> 1 < q ^ n.
Proof.
  intros H Hn. destruct n as [| n]; [lia |]. simpl.
  assert (G : 1 <= q ^ n) by (apply Qcpower_ge_1, Qclt_le_weak, H).
  qc2q. nra.
Qed.

(** ** The amortization schedule

    With [q = 1 + r] the payment [P] of a loan [L] over [N] months satisfies
    [P * annuity q N = L * q^N], for [r = 0] as well as for [r > 0]; the
    lemmas of this part follow the balance from that one equation. *)

Lemma annuity_rate (r : Qc) (k : nat) :
  r * annuity (1 + r) k = (1 + r) ^ k - 1.
Proof.
  induction k as [| k IH]; simpl.
  - ring.
  - transitivity ((1 + r) * (r * annuity (1 + r) k) + r); [ring |].
    rewrite IH. ring.
Qed.

Lemma annuity_pos (r : Qc) (k : nat) :
  0 <= r -> (0 < k)%nat -> 0 < annuity (1 + r) k.
Proof.
  intros Hr Hk. destruct k as [| k]; [lia |]. clear Hk.
  assert (G : 0 <= annuity (1 + r) k).
  { induction k as [| k IH]; simpl.
    - apply Qcle_refl.
    - qc2q. nra. }
  simpl. qc2q. nra.
Qed.

Lemma annuity_one (k : nat) : annuity (1 + 0) k = qz (Z.of_nat k).
Proof.
  induction k as [| k IH].
  - apply Qc_is_canon. reflexivity.
  - cbn [annuity]. rewrite IH. rewrite Nat2Z.inj_succ. unfold Z.succ.
    qc2q. unfold Qeq. simpl. destruct (Z.of_nat k); lia.
Qed.

Section Schedule.
Variables L P r : Qc.
Variable N : nat.
Hypothesis r_nonneg : 0 <= r.
Hypothesis L_nonneg : 0 <= L.
Hypothesis N_pos : (0 < N)%nat.
Hypothesis payment_eq : P * annuity (1 + r) N = L * (1 + r) ^ N.

Let B := ideal_balance L P (1 + r).

Lemma ideal_0 : B 0 = L.
Proof. unfold B, ideal_balance. simpl. ring. Qed.

Lemma ideal_S (k : nat) : B (S k) = (1 + r) * B k - P.
Proof. unfold B, ideal_balance. simpl. ring. Qed.

Lemma ideal_N : B N = 0.
Proof. unfold B, ideal_balance. rewrite payment_eq. ring. Qed.

Lemma payment_nonneg : 0 <= P.
Proof.
  pose proof (annuity_pos r N r_nonneg N_pos) as HA.
  assert (HQ : 0 < (1 + r) ^ N).
  { apply Qcpower_pos_lt. qc2q. lra. }
  pose proof payment_eq as E.
  revert HA HQ E.
  generalize (annuity (1 + r) N) ((1 + r) ^ N). intros a q HA HQ E.
  qc2q. nra.
Qed.

Lemma payment_pos : 0 < L -> 0 < P.
Proof.
  intro HL.
  pose proof (annuity_pos r N r_nonneg N_pos) as HA.
  assert (HQ : 0 < (1 + r) ^ N).
  { apply Qcpower_pos_lt. qc2q. lra. }
  pose proof payment_eq as E.
  revert HA HQ E.
  generalize (annuity (1 + r) N) ((1 + r) ^ N). intros a q HA HQ E.
  qc2q. nra.
Qed.

Lemma payment_covers_interest : 0 <= P - r * L.
Proof.
  pose proof (annuity_pos r N r_nonneg N_pos) as HA.
  assert (E : (P - r * L) * annuity (1 + r) N = L).
  { transitivity (P * annuity (1 + r) N - L * (r * annuity (1 + r) N)); [ring |].
    rewrite payment_eq, annuity_rate. ring. }
  revert HA E. generalize (annuity (1 + r) N). intros a HA E.
  qc2q. nra.
Qed.

Lemma ideal_principal (k : nat) : P - B k * r = (1 + r) ^ k * (P - r * L).
Proof.
  unfold B, ideal_balance.
  transitivity (P - r * L * (1 + r) ^ k + P * (r * annuity (1 + r) k)); [ring |].
  rewrite annuity_rate. ring.
Qed.

Lemma ideal_principal_nonneg (k : nat) : 0 <= P - B k * r.
Proof.
  rewrite ideal_principal.
  pose proof payment_covers_interest as H1.
  assert (H2 : 0 < (1 + r) ^ k).
  { apply Qcpower_pos_lt. qc2q. lra. }
  revert H1 H2. generalize (P - r * L) ((1 + r) ^ k). intros a q H1 H2.
  qc2q. nra.
Qed.

Lemma ideal_nonneg_back (j : nat) : (j <= N)%nat -> 0 <= B (N - j).
Proof.
  induction j as [| j IH]; intro Hj.
  - rewrite Nat.sub_0_r, ideal_N. apply Qcle_refl.
  - assert (E : (N - j = S (N - S j))%nat) by lia.
    assert (H1 : 0 <= B (N - j)) by (apply IH; lia).
    rewrite E, ideal_S in H1.
    pose proof payment_nonneg as H2. pose proof r_nonneg as H3.
    revert H1. generalize (B (N - S j)). intros b H1.
    qc2q. nra.
Qed.

Lemma ideal_nonneg (k : nat) : (k <= N)%nat -> 0 <= B k.
Proof.
  intro Hk. replace k with (N - (N - k))%nat by lia.
  apply ideal_nonneg_back. lia.
Qed.

(** One month of the loop on the ideal schedule: the principal is the
    payment less the interest, and the new balance is the next ideal one. *)
Lemma schedule_step (k : nat) :
  (k < N)%nat ->
  clamp_nonnegative (py_min (P - B k * r) (B k)) = P - B k * r /\
  clamp_nonnegative (B k - (P - B k * r)) = B (S k).
Proof.
  intro Hk.
  pose proof (ideal_principal_nonneg k) as H1.
  assert (H2 : 0 <= B (S k)) by (apply ideal_nonneg; lia).
  assert (E : B k - (P - B k * r) = B (S k)) by (rewrite ideal_S; ring).
  assert (H3 : P - B k * r <= B k).
  { rewrite <- E in H2. revert H2. generalize (P - B k * r) (B k).
    intros a b H2. qc2q. lra. }
  split.
  - destruct (py_min_cases (P - B k * r) (B k)) as [[H4 _] | [_ E2]].
    + exfalso. exact (Qcle_not_lt _ _ H3 H4).
    + rewrite E2. apply clamp_id. exact H1.
  - rewrite E. apply clamp_id. exact H2.
Qed.

(** A balance of 0 strictly before the last month means there is nothing
    to pay at all. *)
Lemma ideal_zero_early (k : nat) : (S k <= N)%nat -> B k <= 0 -> P = 0.
Proof.
  intros Hk Hz.
  assert (H2 : 0 <= B (S k)) by (apply ideal_nonneg; lia).
  rewrite ideal_S in H2.
  pose proof payment_nonneg as H3. pose proof r_nonneg as H4.
  assert (H5 : 0 <= B k) by (apply ideal_nonneg; lia).
  revert H2 Hz H5. generalize (B k). intros b H2 Hz H5.
  qc2q. nra.
Qed.
End Schedule.

(** ** The payment of a valid configuration *)

Lemma loan_amount_nonneg (c : PropertySim) : 0 <= loan_amount c.
Proof. apply clamp_nonneg. Qed.

(** The payment is defined as soon as the term is positive and the interest
    rate is not negative; the price plays no part in it. *)
Section Payment.
Variable c : PropertySim.
Hypothesis Ha : (0 < amort_years c)%Z.
Hypothesis Hi : 0 <= annual_interest_percent c.

Lemma monthly_rate_nonneg_gen : 0 <= monthly_rate c.
Proof. unfold monthly_rate, pct_to_dec. qc2q. lra. Qed.

Lemma term_months_pos_gen : (0 < term_months c)%nat.
Proof. unfold term_months. lia. Qed.

Lemma term_months_Z_gen : Z.of_nat (term_months c) = (amort_years c * 12)%Z.
Proof. unfold term_months. lia. Qed.

Lemma payment_defined_gen :
  exists P,
    mortgage_payment_monthly c None = Ok P /\
    P * annuity (1 + monthly_rate c) (term_months c)
    = loan_amount c * (1 + monthly_rate c) ^ term_months c.
Proof.
  pose proof monthly_rate_nonneg_gen as Hr.
  pose proof term_months_pos_gen as HN.
  unfold mortgage_payment_monthly.
  destruct (Qc_eq_bool (monthly_rate c) 0) eqn:E.
  - apply Qc_eq_bool_true in E. unfold fdiv.
    assert (Hn : qz (amort_years c * 12) <> 0) by (apply qz_nonzero; lia).
    apply Qc_eq_bool_false in Hn. rewrite Hn. apply Qc_eq_bool_false in Hn.
    eexists. split; [reflexivity |].
    rewrite E, annuity_one, term_months_Z_gen.
    replace (1 + 0) with 1 by ring. rewrite Qcpower_1.
    field. exact Hn.
  - apply Qc_eq_bool_false in E.
    assert (Hr' : 0 < monthly_rate c).
    { destruct (Qcle_lt_or_eq _ _ Hr) as [G | G]; [exact G | congruence]. }
    unfold fpow.
    assert (Hz : (0 <=? amort_years c * 12)%Z = true) by (apply Z.leb_le; lia).
    rewrite Hz. cbn [bind]. fold (term_months c).
    assert (Hp : 1 < (1 + monthly_rate c) ^ term_months c).
    { apply Qcpower_gt_1; [| exact HN]. qc2q. lra. }
    assert (Hd : (1 + monthly_rate c) ^ term_months c - 1 <> 0).
    { intro G. revert Hp G. generalize ((1 + monthly_rate c) ^ term_months c).
      intros p Hp G. qc2q. lra. }
    unfold fdiv. apply Qc_eq_bool_false in Hd. rewrite Hd.
    apply Qc_eq_bool_false in Hd.
    eexists. split; [reflexivity |].
    assert (HA : annuity (1 + monthly_rate c) (term_months c)
                 = ((1 + monthly_rate c) ^ term_months c - 1) / monthly_rate c).
    { rewrite <- annuity_rate. field. exact E. }
    rewrite HA. field. split; assumption.
Qed.
End Payment.

Section ValidPayment.
Variable c : PropertySim.
Hypothesis Hv : valid c.

Lemma monthly_rate_nonneg : 0 <= monthly_rate c.
Proof. exact (monthly_rate_nonneg_gen c (proj1 (valid_interest c Hv))). Qed.

Lemma term_months_pos : (0 < term_months c)%nat.
Proof. exact (term_months_pos_gen c (valid_amort c Hv)). Qed.

Lemma loan_amount_valid :
  loan_amount c
  = purchase_price c - purchase_price c * (down_payment_percent c / qz 100).
Proof.
  unfold loan_amount, down_payment, pct_to_dec. apply clamp_id.
  destruct (valid_down c Hv) as [_ H]. pose proof (valid_price c Hv) as Hp.
  qc2q. nra.
Qed.

Lemma loan_amount_pos :
  down_payment_percent c < qz 100 -> 0 < loan_amount c.
Proof.
  intro H. rewrite loan_amount_valid. pose proof (valid_price c Hv) as Hp.
  qc2q. nra.
Qed.

Lemma payment_defined :
  exists P,
    mortgage_payment_monthly c None = Ok P /\
    P * annuity (1 + monthly_rate c) (term_months c)
    = loan_amount c * (1 + monthly_rate c) ^ term_months c.
Proof.
  exact (payment_defined_gen c (valid_amort c Hv) (proj1 (valid_interest c Hv))).
Qed.
End ValidPayment.

(** ** The loop, one month at a time *)

Lemma bind_assoc {A B C : Type} (m : result A) (f : A -> result B) (g : B -> result C) :
  bind (bind m f) g = bind m (fun a => bind (f a) g).
Proof. destruct m; reflexivity. Qed.

Lemma bind_ret {A : Type} (m : result A) : bind m Ok = m.
Proof. destruct m; reflexivity. Qed.

Lemma bind_ok {A B : Type} (m : result A) (f : A -> result B) (b : B) :
  bind m f = Ok b -> exists a, m = Ok a /\ f a = Ok b.
Proof. destruct m as [a | e]; simpl; intro H; [eauto | discriminate]. Qed.

Lemma for_range_snoc {S : Type} (body : nat -> S -> result S) (count start : nat) (s : S) :
  for_range body start (Datatypes.S count) s
  = bind (for_range body start count s) (body (start + count)%nat).
Proof.
  assert (E : forall st cnt x,
             for_range body st (Datatypes.S cnt) x
             = bind (body st x) (for_range body (Datatypes.S st) cnt))
    by reflexivity.
  revert start s. induction count as [| k IH]; intros start s.
  - simpl. rewrite Nat.add_0_r. apply bind_ret.
  - rewrite (E start (Datatypes.S k)), (E start k), bind_assoc.
    destruct (body start s) as [s1 | e]; [| reflexivity]. cbn [bind].
    rewrite IH.
    replace (Datatypes.S start + k)%nat with (start + Datatypes.S k)%nat by lia.
    reflexivity.
Qed.

Lemma simulate_S (c : PropertySim) (k : nat) :
  simulate c (S k) = bind (simulate c k) (body_of c k).
Proof.
  unfold simulate. rewrite bind_assoc.
  destruct (mortgage_payment_monthly c None) as [P | e]; [| reflexivity].
  cbn [bind]. rewrite for_range_snoc. reflexivity.
Qed.

Lemma simulate_0 (c : PropertySim) (s : St.t) :
  simulate c 0 = Ok s ->
  exists P, mortgage_payment_monthly c None = Ok P /\ s = loop_init c P.
Proof.
  unfold simulate. intro H. apply bind_ok in H. destruct H as [P [H1 H2]].
  simpl in H2. exists P. split; congruence.
Qed.

Lemma body_of_step (c : PropertySim) (m : nat) (s s' : St.t) :
  body_of c m s = Ok s' -> exists row, month_step c m s s' row.
Proof.
  unfold body_of, loop_body. intro H.
  apply bind_ok in H. destruct H as [eff [Hrev H]].
  injection H as <-. eexists.
  constructor; cbn; try reflexivity. exact Hrev.
Qed.

Lemma simulate_length (c : PropertySim) (k : nat) (s : St.t) :
  simulate c k = Ok s -> List.length (St.ts s) = k.
Proof.
  revert s. induction k as [| k IH]; intros s H.
  - apply simulate_0 in H. destruct H as [P [_ ->]]. reflexivity.
  - rewrite simulate_S in H. apply bind_ok in H. destruct H as [s0 [H0 H1]].
    apply body_of_step in H1. destruct H1 as [row Hs].
    rewrite (step_ts _ _ _ _ _ Hs), length_app, (IH _ H0). simpl. lia.
Qed.

Lemma simulate_prefix (c : PropertySim) (n k : nat) (sn : St.t) :
  simulate c n = Ok sn -> (k <= n)%nat ->
  exists sk, simulate c k = Ok sk /\ St.ts sk = firstn k (St.ts sn).
Proof.
  revert sn. induction n as [| n IH]; intros sn H Hk.
  - assert (k = 0)%nat by lia. subst k. exists sn. split; [exact H |].
    apply simulate_length in H. destruct (St.ts sn); [reflexivity | discriminate].
  - destruct (Nat.eq_dec k (S n)) as [-> | Hne].
    + exists sn. split; [exact H |]. apply simulate_length in H.
      rewrite <- H at 1. symmetry. apply firstn_all.
    + pose proof H as H'. rewrite simulate_S in H'. apply bind_ok in H'.
      destruct H' as [s0 [H0 H1]].
      apply body_of_step in H1. destruct H1 as [row Hs].
      destruct (IH s0 H0 ltac:(lia)) as [sk [Hsk Ets]].
      exists sk. split; [exact Hsk |].
      rewrite Ets, (step_ts _ _ _ _ _ Hs).
      rewrite firstn_app. apply simulate_length in H0. rewrite H0.
      replace (k - n)%nat with 0%nat by lia. simpl. rewrite app_nil_r. reflexivity.
Qed.

(** The row of month [m] is the one appended by the [m]-th iteration. *)
Lemma simulate_row (c : PropertySim) (n m : nat) (sn : St.t) (row : MonthRecord.t) :
  simulate c n = Ok sn -> nth_error (St.ts sn) m = Some row ->
  exists s s', simulate c m = Ok s /\ simulate c (S m) = Ok s' /\ month_step c m s s' row.
Proof.
  intros H Hrow.
  assert (Hm : (m < n)%nat).
  { rewrite <- (simulate_length _ _ _ H). apply nth_error_Some. congruence. }
  destruct (simulate_prefix c n (S m) sn H ltac:(lia)) as [s' [Hs' Ets]].
  pose proof Hs' as H1. rewrite simulate_S in H1. apply bind_ok in H1.
  destruct H1 as [s [Hs Hb]]. apply body_of_step in Hb. destruct Hb as [row' Hstep].
  assert (row' = row).
  { pose proof (step_ts _ _ _ _ _ Hstep) as E. rewrite Ets in E.
    assert (G : nth_error (firstn (S m) (St.ts sn)) m = Some row).
    { rewrite nth_error_firstn.
      destruct (Nat.ltb_spec m (S m)); [exact Hrow | lia]. }
    rewrite E in G. rewrite nth_error_app2 in G
      by (rewrite (simulate_length _ _ _ Hs); lia).
    rewrite (simulate_length _ _ _ Hs), Nat.sub_diag in G. simpl in G. congruence. }
  subst row'. exists s, s'. split; [| split]; assumption.
Qed.

Lemma In_firstn_nth {A : Type} (x : A) (l : list A) (m : nat) :
  In x (firstn m l) <-> exists j, (j < m)%nat /\ nth_error l j = Some x.
Proof.
  revert m. induction l as [| a l IH]; intro m.
  - rewrite firstn_nil. split; [intros [] |].
    intros [j [_ H]]. destruct j; discriminate.
  - destruct m as [| m].
    + simpl. split; [intros [] | intros [j [H _]]; lia].
    + simpl. rewrite IH. split.
      * intros [-> | [j [Hj H]]].
        -- exists 0%nat. split; [lia | reflexivity].
        -- exists (S j). split; [lia | exact H].
      * intros [[| j] [Hj H]].
        -- left. simpl in H. congruence.
        -- right. exists j. split; [lia | exact H].
Qed.

(** ** What [run] returns *)

Lemma run_inv (c : PropertySim) (d : DataFrame) (c' : PropertySim) :
  run c = Ok (d, c') ->
  exists s res,
    simulate c (Z.to_nat (total_months c)) = Ok s /\
    d = St.ts s /\
    df c' = Some d /\
    results c' = Some res /\
    mortgage_payment_monthly c None = Ok (Results.monthly_mortgage res) /\
    initial_cash_on_cash_percent c = Ok (Results.initial_cash_on_cash_percent res) /\
    Results.cumulative_cash_flow res = St.cumulative_cf s /\
    Results.terminal_equity res = St.current_price s - St.balance s /\
    exists r0,
      nth_error d 0 = Some r0 /\
      Results.payback_month_on_upfront res
      = if Qcleb 0 (MonthRecord.cumulative_cash_flow r0) then Some 0%nat
        else first_index_ge (map MonthRecord.cumulative_cash_flow d) (total_upfront c) 0.
Proof.
  unfold run. intro H.
  apply bind_ok in H. destruct H as [s [Hs H]].
  apply bind_ok in H. destruct H as [fc [Hfc H]].
  apply bind_ok in H. destruct H as [mm [Hmm H]].
  apply bind_ok in H. destruct H as [coc [Hcoc H]].
  apply bind_ok in H. destruct H as [lcf [Hlcf H]].
  injection H as <- <-. eexists s, _.
  repeat (split; [first [eassumption | reflexivity] |]).
  unfold iloc_first in Hfc. destruct (St.ts s) as [| r0 rest]; [discriminate |].
  injection Hfc as <-. exists r0. split; reflexivity.
Qed.

Lemma run_length (c : PropertySim) (d : DataFrame) (c' : PropertySim) :
  run c = Ok (d, c') -> List.length d = Z.to_nat (years c * 12).
Proof.
  intro H. apply run_inv in H. destruct H as [s [res [Hs [-> _]]]].
  apply simulate_length in Hs. exact Hs.
Qed.

(** ** Balance and payment along the loop *)

Lemma month_step_balance (c : PropertySim) (m : nat) (s s' : St.t) (row : MonthRecord.t) :
  month_step c m s s' row -> 0 <= St.balance s ->
  0 <= MonthRecord.principal row /\
  MonthRecord.principal row <= St.balance s /\
  St.balance s' = St.balance s - MonthRecord.principal row /\
  0 <= St.balance s' /\
  St.balance s' <= St.balance s.
Proof.
  intros Hs Hb.
  pose proof (step_principal _ _ _ _ _ Hs) as Ep.
  pose proof (step_balance _ _ _ _ _ Hs) as Eb.
  assert (H0 : 0 <= MonthRecord.principal row) by (rewrite Ep; apply clamp_nonneg).
  assert (H1 : MonthRecord.principal row <= St.balance s).
  { rewrite Ep. unfold clamp_nonnegative.
    destruct (py_max_cases 0 (py_min (St.mmtg s - St.balance s * monthly_rate c)
                                     (St.balance s))) as [[_ E] | [_ E]];
      rewrite E; [| exact Hb].
    destruct (py_min_cases (St.mmtg s - St.balance s * monthly_rate c) (St.balance s))
      as [[_ E2] | [G E2]]; rewrite E2; [apply Qcle_refl | exact G]. }
  assert (H2 : St.balance s' = St.balance s - MonthRecord.principal row).
  { rewrite Eb. apply clamp_id. revert H1. generalize (MonthRecord.principal row).
    intros p H1. qc2q. lra. }
  repeat split; try assumption.
  - rewrite Eb. apply clamp_nonneg.
  - rewrite H2. revert H0. generalize (MonthRecord.principal row).
    intros p H0. qc2q. lra.
Qed.

Lemma simulate_balance_nonneg (c : PropertySim) (k : nat) (s : St.t) :
  simulate c k = Ok s -> 0 <= St.balance s.
Proof.
  destruct k as [| k]; intro H.
  - apply simulate_0 in H. destruct H as [P [_ ->]]. apply loan_amount_nonneg.
  - rewrite simulate_S in H. apply bind_ok in H. destruct H as [s0 [_ H]].
    apply body_of_step in H. destruct H as [row Hs].
    rewrite (step_balance _ _ _ _ _ Hs). apply clamp_nonneg.
Qed.

Lemma paid_off_firstn (d : DataFrame) (m : nat) :
  paid_off (firstn m d) = true <->
  exists j row, (j < m)%nat /\ nth_error d j = Some row /\ MonthRecord.balance row <= 0.
Proof.
  unfold paid_off. rewrite existsb_exists. split.
  - intros [row [Hin Hle]]. apply In_firstn_nth in Hin. destruct Hin as [j [Hj Hn]].
    exists j, row. apply Qcleb_true in Hle. auto.
  - intros [j [row [Hj [Hn Hle]]]]. exists row. split.
    + apply In_firstn_nth. eauto.
    + apply Qcleb_true. exact Hle.
Qed.

Lemma simulate_mmtg (c : PropertySim) (P : Qc) (k : nat) (s : St.t) :
  mortgage_payment_monthly c None = Ok P ->
  simulate c k = Ok s ->
  St.mmtg s = if paid_off (St.ts s) then 0 else P.
Proof.
  intro HP. revert s. induction k as [| k IH]; intros s H.
  - apply simulate_0 in H. destruct H as [P' [HP' ->]]. simpl. congruence.
  - rewrite simulate_S in H. apply bind_ok in H. destruct H as [s0 [H0 H1]].
    apply body_of_step in H1. destruct H1 as [row Hs].
    rewrite (step_mmtg _ _ _ _ _ Hs), (step_ts _ _ _ _ _ Hs), (IH _ H0).
    unfold paid_off. rewrite existsb_app. simpl.
    rewrite (step_row_balance _ _ _ _ _ Hs), orb_false_r.
    destruct (existsb _ (St.ts s0)); simpl.
    + destruct (Qcleb (St.balance s) 0); reflexivity.
    + reflexivity.
Qed.

Section Rows.
Variables (c : PropertySim) (d : DataFrame) (c' : PropertySim).
Hypothesis Hrun : run c = Ok (d, c').

Lemma rows_simulate :
  exists sn, simulate c (Z.to_nat (total_months c)) = Ok sn /\ d = St.ts sn.
Proof.
  destruct (run_inv _ _ _ Hrun) as [s [res [Hs [Hd _]]]]. eauto.
Qed.

Lemma row_step (m : nat) (row : MonthRecord.t) :
  nth_error d m = Some row ->
  exists s s',
    simulate c m = Ok s /\ simulate c (S m) = Ok s' /\
    St.ts s = firstn m d /\ month_step c m s s' row.
Proof.
  intro Hrow. destruct rows_simulate as [sn [Hsn ->]].
  destruct (simulate_row _ _ _ _ _ Hsn Hrow) as [s [s' [Hs [Hs' Hstep]]]].
  exists s, s'. repeat (split; [assumption |]). split; [| exact Hstep].
  assert (Hm : (m <= Z.to_nat (total_months c))%nat).
  { rewrite <- (simulate_length _ _ _ Hsn).
    apply Nat.lt_le_incl, nth_error_Some. congruence. }
  destruct (simulate_prefix _ _ _ _ Hsn Hm) as [sk [Hsk E]]. congruence.
Qed.

Lemma row_balance_nonneg (m : nat) (row : MonthRecord.t) :
  nth_error d m = Some row -> 0 <= MonthRecord.balance row.
Proof.
  intro Hrow. destruct (row_step _ _ Hrow) as [s [s' [_ [Hs' [_ Hstep]]]]].
  rewrite (step_row_balance _ _ _ _ _ Hstep).
  exact (simulate_balance_nonneg _ _ _ Hs').
Qed.

Lemma row_payment (P : Qc) (m : nat) (row : MonthRecord.t) :
  mortgage_payment_monthly c None = Ok P ->
  nth_error d m = Some row ->
  MonthRecord.mortgage_payment row = if paid_off (firstn m d) then 0 else P.
Proof.
  intros HP Hrow. destruct (row_step _ _ Hrow) as [s [s' [Hs [_ [E Hstep]]]]].
  rewrite (step_payment _ _ _ _ _ Hstep), (simulate_mmtg _ _ _ _ HP Hs), E.
  reflexivity.
Qed.

(** The state that month [m] starts from holds the balance recorded by
    the month before, or the loan amount in month 0. *)
Lemma row_previous_balance (m : nat) (row : MonthRecord.t) :
  nth_error d m = Some row ->
  exists s s',
    simulate c m = Ok s /\ month_step c m s s' row /\
    St.balance s = balance_before c d m.
Proof.
  intro Hrow. destruct (row_step _ _ Hrow) as [s [s' [Hs [_ [_ Hstep]]]]].
  exists s, s'. repeat (split; [assumption |]).
  destruct m as [| j]; simpl.
  - apply simulate_0 in Hs. destruct Hs as [P [_ ->]]. reflexivity.
  - destruct (nth_error d j) as [prev |] eqn:Hprev.
    + destruct (row_step _ _ Hprev) as [sj [sj' [_ [Hsj' [_ Hstepj]]]]].
      rewrite (step_row_balance _ _ _ _ _ Hstepj). congruence.
    + exfalso. apply nth_error_None in Hprev.
      assert (S j < List.length d)%nat by (apply nth_error_Some; congruence).
      lia.
Qed.
End Rows.

(** ** The loop follows the amortization schedule *)

Section ValidSchedule.
Variable c : PropertySim.
Hypothesis Hv : valid c.
Variable P : Qc.
Hypothesis HP : mortgage_payment_monthly c None = Ok P.

Let B := ideal_balance (loan_amount c) P (1 + monthly_rate c).

Lemma payment_annuity :
  P * annuity (1 + monthly_rate c) (term_months c)
  = loan_amount c * (1 + monthly_rate c) ^ term_months c.
Proof.
  destruct (payment_defined c Hv) as [P' [H1 H2]]. congruence.
Qed.

Lemma simulate_ideal (k : nat) (s : St.t) :
  (k <= term_months c)%nat -> simulate c k = Ok s ->
  St.balance s = B k /\ ((k < term_months c)%nat -> St.mmtg s = P).
Proof.
  pose proof (monthly_rate_nonneg c Hv) as Hr.
  pose proof (loan_amount_nonneg c) as HL.
  pose proof (term_months_pos c Hv) as HN.
  pose proof payment_annuity as HA.
  revert s. induction k as [| k IH]; intros s Hk H.
  - apply simulate_0 in H. destruct H as [P' [HP' ->]]. simpl. split.
    + unfold B. symmetry. apply ideal_0.
    + intros _. congruence.
  - rewrite simulate_S in H. apply bind_ok in H. destruct H as [s0 [H0 H1]].
    apply body_of_step in H1. destruct H1 as [row Hs].
    destruct (IH s0 ltac:(lia) H0) as [Eb Em]. specialize (Em ltac:(lia)).
    destruct (schedule_step _ _ _ _ Hr HL HN HA k ltac:(lia)) as [E1 E2].
    fold B in E1, E2.
    assert (Ebal : St.balance s = B (S k)).
    { rewrite (step_balance _ _ _ _ _ Hs), (step_principal _ _ _ _ _ Hs).
      rewrite Em, Eb, E1. exact E2. }
    split; [exact Ebal |].
    intro Hlt. rewrite (step_mmtg _ _ _ _ _ Hs), Em.
    destruct (Qcleb (St.balance s) 0) eqn:E; [| reflexivity].
    apply Qcleb_true in E. rewrite Ebal in E. symmetry.
    exact (ideal_zero_early _ _ _ _ Hr HL HN HA (S k) ltac:(lia) E).
Qed.

Lemma simulate_paid_at_term (s : St.t) :
  simulate c (term_months c) = Ok s -> St.balance s = 0.
Proof.
  intro H. destruct (simulate_ideal _ _ (le_n _) H) as [E _]. rewrite E.
  unfold B. apply ideal_N. exact payment_annuity.
Qed.
End ValidSchedule.

(** ** Claims on the payment and the balance *)


(** The balance in exact arithmetic.  In the rows of a run of a valid
    configuration the balance is never negative, never increases from one
    month to the next, the principal of a month never exceeds the balance
    before that month's payment, and when [years >= amort_years] the balance
    is exactly 0 in the row of month [amort_years * 12 - 1]. *)
Theorem balance_invariants (c : PropertySim) (d : DataFrame) (c' : PropertySim) :
  valid c -> run c = Ok (d, c') ->
  (forall m row, nth_error d m = Some row ->
     0 <= MonthRecord.balance row /\
     MonthRecord.principal row <= balance_before c d m /\
     MonthRecord.balance row <= balance_before c d m) /\
  (forall m row next, nth_error d m = Some row -> nth_error d (S m) = Some next ->
     MonthRecord.balance next <= MonthRecord.balance row) /\
  ((amort_years c <= years c)%Z ->
   exists row, nth_error d (Z.to_nat (amort_years c * 12) - 1) = Some row /\
               MonthRecord.balance row = 0).
Proof.
  intros Hv Hrun.
  assert (Hrows : forall m row, nth_error d m = Some row ->
     0 <= MonthRecord.balance row /\
     MonthRecord.principal row <= balance_before c d m /\
     MonthRecord.balance row <= balance_before c d m).
  { intros m row Hrow.
    destruct (row_previous_balance _ _ _ Hrun m row Hrow) as [s [s' [Hs [Hstep Eb]]]].
    pose proof (simulate_balance_nonneg _ _ _ Hs) as H0.
    destruct (month_step_balance _ _ _ _ _ Hstep H0) as [_ [H1 [_ [H2 H3]]]].
    rewrite (step_row_balance _ _ _ _ _ Hstep), <- Eb. auto. }
  split; [exact Hrows |]. split.
  - intros m row next Hrow Hnext.
    destruct (Hrows _ _ Hnext) as [_ [_ H]]. simpl in H. rewrite Hrow in H. exact H.
  - intro Hy. pose proof (valid_amort c Hv) as Ha.
    fold (term_months c).
    destruct (payment_defined c Hv) as [P [HP _]].
    assert (Hlen : (term_months c - 1 < List.length d)%nat).
    { rewrite (run_length _ _ _ Hrun). unfold term_months. lia. }
    destruct (nth_error d (term_months c - 1)) as [row |] eqn:Hrow;
      [| apply nth_error_None in Hrow; lia].
    exists row. split; [reflexivity |].
    destruct (row_step _ _ _ Hrun _ _ Hrow) as [s [s' [_ [Hs' [_ Hstep]]]]].
    rewrite (step_row_balance _ _ _ _ _ Hstep).
    replace (S (term_months c - 1)) with (term_months c) in Hs'
      by (unfold term_months; lia).
    exact (simulate_paid_at_term c Hv P HP s' Hs').
Qed.

(** *** The last payment on floats *)

Module Binary64Run.
Import PrimFloat.

(** C2, the behaviour of the code.  With 100000 borrowed in full at 0% over
    one year the payment is 100000/12 rounded to binary64, and the twelfth
    payment (month index 11, the last of the schedule) leaves a positive
    balance below 2^-36.  The balance is 0 only in the row of month 12, and
    that row still records the full payment. *)
Lemma payoff_residue_on_binary64 :
  match nth_error Binary64.zero_rate_schedule 11,
        nth_error Binary64.zero_rate_schedule 12 with
  | Some r11, Some r12 =>
      (0 <? Binary64.balance r11)%float = true /\
      (Binary64.balance r11 <? 0x1p-36)%float = true /\
      Binary64.balance r12 = 0%float /\
      Binary64.mortgage_payment r12 = Binary64.mortgage_payment r11 /\
      (8333 <? Binary64.mortgage_payment r12)%float = true
  | _, _ => False
  end.
Proof. vm_compute. repeat split. Qed.
End Binary64Run.

(** ** The example configurations are valid *)

Ltac solve_valid :=
  constructor;
  first [ reflexivity
        | left; reflexivity
        | right; reflexivity
        | split; vm_compute; discriminate ].

Lemma reference_config_valid : valid reference_config.
Proof. solve_valid. Qed.

Lemma full_down_config_valid : valid full_down_config.
Proof. solve_valid. Qed.

(** ** Claims on the shape of the payment column *)

(** C3, counterexample.  With [down_payment_percent = 100] the loan amount is
    0, the payment recorded in month 0 is 0, and no positive constant fits. *)
Lemma positive_payment_fails_at_full_down :
  ~ (forall c d c', valid c -> run c = Ok (d, c') -> positive_payment_profile d).
Proof.
  intro H.
  destruct (run full_down_config) as [[d c'] | e] eqn:Hrun;
    [| vm_compute in Hrun; discriminate].
  destruct (H _ _ _ full_down_config_valid Hrun) as [P [HP Hprof]].
  destruct d as [| row d]; [vm_compute in Hrun; discriminate |].
  destruct (Hprof 0%nat row eq_refl) as [_ Hp].
  assert (E : MonthRecord.mortgage_payment row = P).
  { apply Hp. intros j prev Hj. lia. }
  assert (Z : MonthRecord.mortgage_payment row = 0).
  { vm_compute in Hrun. injection Hrun as <- _ _. apply Qc_is_canon. reflexivity. }
  rewrite Z in E. rewrite <- E in HP. exact (Qclt_not_eq _ _ HP eq_refl).
Qed.

(** C3, amended.  A run of a valid configuration has exactly [years * 12]
    rows; the payment column is 0 in every month after the first month with
    balance 0 and one constant up to and including that month; the constant
    is non-negative, and positive whenever [down_payment_percent < 100]. *)
Theorem payment_profile_full_horizon (c : PropertySim) (d : DataFrame) (c' : PropertySim) :
  valid c -> run c = Ok (d, c') ->
  List.length d = Z.to_nat (years c * 12) /\
  exists P,
    0 <= P /\
    (down_payment_percent c < qz 100 -> 0 < P) /\
    payment_profile d P.
Proof.
  intros Hv Hrun. split; [exact (run_length _ _ _ Hrun) |].
  destruct (payment_defined c Hv) as [P [HP HA]].
  pose proof (monthly_rate_nonneg c Hv) as Hr.
  pose proof (loan_amount_nonneg c) as HL.
  pose proof (term_months_pos c Hv) as HN.
  exists P. split; [exact (payment_nonneg _ _ _ _ Hr HL HN HA) |]. split.
  - intro Hd. apply (payment_pos _ _ _ _ Hr HL HN HA).
    exact (loan_amount_pos c Hv Hd).
  - intros m row Hrow. rewrite (row_payment _ _ _ Hrun P m row HP Hrow). split.
    + intros [j [prev [Hj [Hp Hz]]]].
      assert (E : paid_off (firstn m d) = true).
      { apply paid_off_firstn. exists j, prev. rewrite Hz.
        repeat split; try assumption. apply Qcle_refl. }
      rewrite E. reflexivity.
    + intro Hnz. destruct (paid_off (firstn m d)) eqn:E; [| reflexivity].
      apply paid_off_firstn in E. destruct E as [j [prev [Hj [Hp Hle]]]].
      exfalso. apply (Hnz j prev Hj Hp). apply Qcle_antisym; [exact Hle |].
      exact (row_balance_nonneg _ _ _ Hrun _ _ Hp).
Qed.


(** ** Annual escalation *)

Lemma year_boundary_div (k : nat) :
  (k / 12 = if year_boundary k then S (pred k / 12) else pred k / 12)%nat.
Proof.
  unfold year_boundary. destruct k as [| j]; [reflexivity |].
  cbn [pred Nat.ltb Nat.leb andb].
  pose proof (Nat.div_mod_eq (S j) 12) as E1.
  pose proof (Nat.div_mod_eq j 12) as E2.
  pose proof (Nat.mod_upper_bound (S j) 12 ltac:(lia)) as B1.
  pose proof (Nat.mod_upper_bound j 12 ltac:(lia)) as B2.
  destruct (Nat.eqb_spec (S j mod 12) 0) as [E | E]; lia.
Qed.

Lemma simulate_escalation (c : PropertySim) (k : nat) (s : St.t) :
  simulate c k = Ok s ->
  St.current_price s = price_in_month c (pred k) /\
  St.base_rate s = base_rate_in_month c (pred k) /\
  St.monthly_tax s
  = (St.current_price s * pct_to_dec (tax_percent_of_price_per_year c)) / qz 12 /\
  St.monthly_ins s
  = (St.current_price s * pct_to_dec (insurance_percent_of_price_per_year c)) / qz 12 /\
  St.monthly_maint s
  = (St.current_price s * pct_to_dec (maintenance_percent_of_price_per_year c)) / qz 12.
Proof.
  revert s. induction k as [| k IH]; intros s H.
  - apply simulate_0 in H. destruct H as [P [_ ->]].
    unfold price_in_month, base_rate_in_month, initial_base_rate. cbn.
    repeat split; try reflexivity; ring.
  - rewrite simulate_S in H. apply bind_ok in H. destruct H as [s0 [H0 H1]].
    apply body_of_step in H1. destruct H1 as [row Hs].
    destruct (IH _ H0) as [Ep [Eb [Et [Ei Em]]]].
    pose proof (step_price _ _ _ _ _ Hs) as Sp.
    pose proof (step_base_rate _ _ _ _ _ Hs) as Sb.
    pose proof (step_tax _ _ _ _ _ Hs) as St.
    pose proof (step_ins _ _ _ _ _ Hs) as Si.
    pose proof (step_maint _ _ _ _ _ Hs) as Sm.
    pose proof (year_boundary_div k) as Hd.
    cbn [pred]. unfold price_in_month, base_rate_in_month in *.
    destruct (year_boundary k).
    + rewrite Hd. cbn [Qcpower].
      repeat split; try assumption.
      * rewrite Sp, Ep. ring.
      * rewrite Sb, Eb. ring.
    + rewrite Hd.
      repeat split; try congruence.
Qed.

(** C4.  At every month [m > 0] with [m mod 12 = 0] the loop multiplies the
    base rate by [1 + rent_growth/100] and the price by [1 + appreciation/100]
    and recomputes the monthly tax, insurance and maintenance from the new
    price.  Hence the row of any month [m] records the property value
    [purchase_price * (1 + appreciation/100)^(m/12)], a rent computed from
    the base rate escalated [m/12] times, and expenses equal to that year's
    monthly tax, insurance and maintenance plus the flat
    [other_costs_monthly]. *)
Theorem annual_escalation (c : PropertySim) (d : DataFrame) (c' : PropertySim) :
  run c = Ok (d, c') ->
  (forall m s s', (0 < m)%nat -> (m mod 12 = 0)%nat -> body_of c m s = Ok s' ->
     St.base_rate s'
     = St.base_rate s * (1 + rent_growth_percent_per_year c / qz 100) /\
     St.current_price s'
     = St.current_price s * (1 + appreciation_percent_per_year c / qz 100) /\
     St.monthly_tax s'
     = St.current_price s' * (tax_percent_of_price_per_year c / qz 100) / qz 12 /\
     St.monthly_ins s'
     = St.current_price s' * (insurance_percent_of_price_per_year c / qz 100) / qz 12 /\
     St.monthly_maint s'
     = St.current_price s' * (maintenance_percent_of_price_per_year c / qz 100) / qz 12) /\
  (forall m row, nth_error d m = Some row ->
     let value :=
       purchase_price c * (1 + appreciation_percent_per_year c / qz 100) ^ (m / 12) in
     let rate :=
       initial_base_rate c * (1 + rent_growth_percent_per_year c / qz 100) ^ (m / 12) in
     MonthRecord.property_value row = value /\
     calculate_monthly_revenue c rate = Ok (MonthRecord.effective_rent row) /\
     MonthRecord.expenses row
     = value * (tax_percent_of_price_per_year c / qz 100) / qz 12
       + value * (insurance_percent_of_price_per_year c / qz 100) / qz 12
       + value * (maintenance_percent_of_price_per_year c / qz 100) / qz 12
       + other_costs_monthly c).
Proof.
  intro Hrun. split.
  - intros m s s' Hm Hmod Hb. apply body_of_step in Hb. destruct Hb as [row Hs].
    assert (E : year_boundary m = true).
    { unfold year_boundary. rewrite Hmod.
      destruct (Nat.ltb_spec 0 m); [reflexivity | lia]. }
    pose proof (step_price _ _ _ _ _ Hs) as Sp.
    pose proof (step_base_rate _ _ _ _ _ Hs) as Sb.
    pose proof (step_tax _ _ _ _ _ Hs) as St.
    pose proof (step_ins _ _ _ _ _ Hs) as Si.
    pose proof (step_maint _ _ _ _ _ Hs) as Sm.
    rewrite E in *. repeat split; assumption.
  - intros m row Hrow.
    destruct (row_step _ _ _ Hrun _ _ Hrow) as [s [s' [_ [Hs' [_ Hstep]]]]].
    destruct (simulate_escalation _ _ _ Hs') as [Ep [Eb [Et [Ei Em]]]].
    cbn [pred] in Ep, Eb. cbv zeta.
    fold (pct_to_dec (appreciation_percent_per_year c)).
    fold (pct_to_dec (rent_growth_percent_per_year c)).
    fold (price_in_month c m). fold (base_rate_in_month c m).
    rewrite <- Ep, <- Eb. split; [| split].
    + exact (step_value _ _ _ _ _ Hstep).
    + exact (step_rent _ _ _ _ _ Hstep).
    + rewrite (step_expenses _ _ _ _ _ Hstep), Et, Ei, Em. reflexivity.
Qed.

(** ** Payback month *)

Lemma first_index_ge_some (values : list Qc) (bound : Qc) (i k : nat) :
  first_index_ge values bound i = Some k <->
  exists m v,
    k = (i + m)%nat /\ nth_error values m = Some v /\ bound <= v /\
    forall j w, (j < m)%nat -> nth_error values j = Some w -> w < bound.
Proof.
  revert i. induction values as [| a rest IH]; intro i; simpl.
  - split; [discriminate |]. intros [m [v [_ [H _]]]]. destruct m; discriminate.
  - destruct (Qcleb bound a) eqn:E.
    + apply Qcleb_true in E. split.
      * intro H. injection H as <-. exists 0%nat, a.
        repeat split; [lia | exact E |]. intros j w Hj. lia.
      * intros [m [v [-> [Hn [Hv Hlt]]]]]. destruct m as [| m].
        -- f_equal. lia.
        -- exfalso. apply (Qcle_not_lt _ _ E).
           apply (Hlt 0%nat a); [lia | reflexivity].
    + apply Qcleb_false in E. rewrite IH. split.
      * intros [m [v [-> [Hn [Hv Hlt]]]]]. exists (S m), v.
        repeat split; [lia | exact Hn | exact Hv |].
        intros [| j] w Hj Hw.
        -- simpl in Hw. injection Hw as <-. exact E.
        -- apply (Hlt j w); [lia | exact Hw].
      * intros [m [v [-> [Hn [Hv Hlt]]]]]. destruct m as [| m].
        -- simpl in Hn. injection Hn as <-.
           exfalso. exact (Qcle_not_lt _ _ Hv E).
        -- exists m, v. repeat split; [lia | exact Hn | exact Hv |].
           intros j w Hj Hw. apply (Hlt (S j) w); [lia | exact Hw].
Qed.

Lemma first_index_ge_none (values : list Qc) (bound : Qc) (i : nat) :
  first_index_ge values bound i = None <->
  forall m v, nth_error values m = Some v -> v < bound.
Proof.
  revert i. induction values as [| a rest IH]; intro i; simpl.
  - split; [| reflexivity]. intros _ m v H. destruct m; discriminate.
  - destruct (Qcleb bound a) eqn:E.
    + apply Qcleb_true in E. split; [discriminate |].
      intro H. exfalso. apply (Qcle_not_lt _ _ E). apply (H 0%nat a). reflexivity.
    + apply Qcleb_false in E. rewrite IH. split.
      * intros H [| m] v Hn.
        -- simpl in Hn. injection Hn as <-. exact E.
        -- exact (H m v Hn).
      * intros H m v Hn. exact (H (S m) v Hn).
Qed.

Lemma nth_error_map_some {A B : Type} (f : A -> B) (l : list A) (m : nat) (b : B) :
  nth_error (map f l) m = Some b <-> exists a, nth_error l m = Some a /\ f a = b.
Proof.
  rewrite nth_error_map. destruct (nth_error l m) as [a |]; simpl; split.
  - intro H. injection H as <-. eauto.
  - intros [a' [H <-]]. congruence.
  - discriminate.
  - intros [a' [H _]]. discriminate.
Qed.

(** C9.  [payback_month_on_upfront] is 0 when the cumulative cash flow of
    month 0 is non-negative; otherwise it is the first month index whose
    cumulative cash flow reaches [total_upfront], and null when no month of
    the horizon does. *)
Theorem payback_month_on_upfront_spec (c : PropertySim) (d : DataFrame) (c' : PropertySim) :
  run c = Ok (d, c') ->
  exists res r0,
    results c' = Some res /\ nth_error d 0 = Some r0 /\
    (0 <= MonthRecord.cumulative_cash_flow r0 ->
     Results.payback_month_on_upfront res = Some 0%nat) /\
    (MonthRecord.cumulative_cash_flow r0 < 0 ->
     (forall m,
        Results.payback_month_on_upfront res = Some m <->
        exists row,
          nth_error d m = Some row /\
          total_upfront c <= MonthRecord.cumulative_cash_flow row /\
          forall j prev, (j < m)%nat -> nth_error d j = Some prev ->
                         MonthRecord.cumulative_cash_flow prev < total_upfront c) /\
     (Results.payback_month_on_upfront res = None <->
      forall m row, nth_error d m = Some row ->
                    MonthRecord.cumulative_cash_flow row < total_upfront c)).
Proof.
  intro Hrun.
  destruct (run_inv _ _ _ Hrun)
    as [s [res [_ [_ [_ [Hres [_ [_ [_ [_ [r0 [H0 Hpay]]]]]]]]]]]].
  exists res, r0. split; [exact Hres |]. split; [exact H0 |]. split.
  - intro Hpos. apply Qcleb_true in Hpos. rewrite Hpay, Hpos. reflexivity.
  - intro Hneg. apply Qcleb_false in Hneg. rewrite Hpay, Hneg. split.
    + intro m. rewrite first_index_ge_some. split.
      * intros [k [v [-> [Hn [Hv Hlt]]]]].
        apply nth_error_map_some in Hn. destruct Hn as [row [Hrow <-]].
        exists row. repeat split; try assumption.
        intros j prev Hj Hp. apply (Hlt j); [exact Hj |].
        apply nth_error_map_some. eauto.
      * intros [row [Hrow [Hv Hlt]]].
        exists m, (MonthRecord.cumulative_cash_flow row).
        repeat split; try assumption.
        -- apply nth_error_map_some. eauto.
        -- intros j w Hj Hw. apply nth_error_map_some in Hw.
           destruct Hw as [prev [Hp <-]]. exact (Hlt j prev Hj Hp).
    + rewrite first_index_ge_none. split.
      * intros H m row Hrow. apply (H m). apply nth_error_map_some. eauto.
      * intros H m v Hn. apply nth_error_map_some in Hn.
        destruct Hn as [row [Hrow <-]]. exact (H m row Hrow).
Qed.

(** ** When [run] returns and when it raises *)

Lemma revenue_ok (c : PropertySim) (b : Qc) :
  revenue_defined c -> exists v, calculate_monthly_revenue c b = Ok v.
Proof.
  intro H. unfold calculate_monthly_revenue.
  destruct (String.eqb_spec (rental_type c) "short_term") as [E | E].
  - specialize (H E). unfold fdiv. apply Qc_eq_bool_false in H. rewrite H.
    cbn [bind]. eauto.
  - eauto.
Qed.

Lemma revenue_error (c : PropertySim) (b : Qc) (e : exn) :
  calculate_monthly_revenue c b = Raise e -> e = ZeroDivisionError.
Proof.
  unfold calculate_monthly_revenue, fdiv.
  destruct (String.eqb (rental_type c) "short_term"); [| discriminate].
  destruct (Qc_eq_bool (avg_stay_length_nights c) 0); cbn [bind]; congruence.
Qed.

Lemma payment_error (c : PropertySim) (e : exn) :
  mortgage_payment_monthly c None = Raise e -> e = ZeroDivisionError.
Proof.
  unfold mortgage_payment_monthly, fdiv, fpow.
  destruct (Qc_eq_bool (monthly_rate c) 0).
  - destruct (Qc_eq_bool _ 0); congruence.
  - destruct (0 <=? amort_years c * 12)%Z; cbn [bind].
    + destruct (Qc_eq_bool _ 0); congruence.
    + destruct (Qc_eq_bool (1 + monthly_rate c) 0); cbn [bind]; [congruence |].
      destruct (Qc_eq_bool _ 0); congruence.
Qed.

Lemma body_of_ok (c : PropertySim) (m : nat) (s : St.t) :
  revenue_defined c -> exists s', body_of c m s = Ok s'.
Proof.
  intro H. unfold body_of, loop_body.
  match goal with
  | |- context [calculate_monthly_revenue c ?b] =>
      destruct (revenue_ok c b H) as [v Hv]; rewrite Hv
  end.
  cbn [bind]. eauto.
Qed.

Lemma body_of_error (c : PropertySim) (m : nat) (s : St.t) (e : exn) :
  body_of c m s = Raise e -> e = ZeroDivisionError.
Proof.
  unfold body_of, loop_body.
  match goal with
  | |- context [calculate_monthly_revenue c ?b] =>
      destruct (calculate_monthly_revenue c b) as [v | e'] eqn:E
  end; cbn [bind]; [discriminate |].
  intro H. injection H as <-. exact (revenue_error _ _ _ E).
Qed.

Lemma simulate_ok (c : PropertySim) (P : Qc) (k : nat) :
  mortgage_payment_monthly c None = Ok P -> revenue_defined c ->
  exists s, simulate c k = Ok s.
Proof.
  intros HP Hrev. induction k as [| k [s IH]].
  - unfold simulate. rewrite HP. simpl. eauto.
  - rewrite simulate_S, IH. cbn [bind]. apply body_of_ok. exact Hrev.
Qed.

Lemma simulate_error (c : PropertySim) (k : nat) (e : exn) :
  simulate c k = Raise e -> e = ZeroDivisionError.
Proof.
  induction k as [| k IH].
  - unfold simulate.
    destruct (mortgage_payment_monthly c None) as [P | e'] eqn:E; simpl; [discriminate |].
    intro H. injection H as <-. exact (payment_error _ _ E).
  - rewrite simulate_S. destruct (simulate c k) as [s | e'] eqn:E; cbn [bind].
    + apply body_of_error.
    + intro H. injection H as <-. apply IH. reflexivity.
Qed.

Lemma iloc_last_ok {A : Type} (col : MonthRecord.t -> A) (d : DataFrame) :
  d <> [] -> exists v, iloc_last col d = Ok v.
Proof.
  intro H. unfold iloc_last. destruct (rev d) as [| r l] eqn:E.
  - exfalso. apply H. apply (f_equal (@rev _)) in E. rewrite rev_involutive in E.
    exact E.
  - eauto.
Qed.

Lemma run_ok (c : PropertySim) :
  (0 < amort_years c)%Z -> (0 < years c)%Z -> 0 <= annual_interest_percent c ->
  total_upfront c <> 0 -> revenue_defined c ->
  exists d c', run c = Ok (d, c') /\ List.length d = Z.to_nat (years c * 12).
Proof.
  intros Ha Hy Hi Hup Hrev.
  destruct (payment_defined_gen c Ha Hi) as [P [HP _]].
  destruct (simulate_ok c P (Z.to_nat (total_months c)) HP Hrev) as [s Hs].
  pose proof (simulate_length _ _ _ Hs) as Hlen.
  assert (Hne : St.ts s <> []).
  { intro E. rewrite E in Hlen. simpl in Hlen. unfold total_months in Hlen. lia. }
  assert (Hrun : exists d c', run c = Ok (d, c')).
  { unfold run. rewrite Hs. cbn [bind].
    destruct (St.ts s) as [| r0 rest] eqn:Ets; [congruence |].
    cbn [iloc_first bind]. rewrite HP. cbn [bind].
    unfold initial_cash_on_cash_percent.
    assert (Hm : exists v,
               (if String.eqb (rental_type c) "short_term"
                then calculate_monthly_revenue c (nightly_rate c)
                else calculate_monthly_revenue c (monthly_rent c)) = Ok v).
    { destruct (String.eqb (rental_type c) "short_term"); apply revenue_ok, Hrev. }
    destruct Hm as [v Hm]. rewrite Hm. cbn [bind].
    unfold fdiv. apply Qc_eq_bool_false in Hup. rewrite Hup. cbn [bind].
    destruct (iloc_last_ok MonthRecord.monthly_cash_flow (r0 :: rest)) as [l Hl];
      [discriminate |].
    rewrite Hl. cbn [bind]. eauto. }
  destruct Hrun as [d [c' Hrun]]. exists d, c'. split; [exact Hrun |].
  exact (run_length _ _ _ Hrun).
Qed.

Lemma run_error_kind (c : PropertySim) (e : exn) :
  (0 < years c)%Z -> run c = Raise e -> e = ZeroDivisionError.
Proof.
  intros Hy. unfold run.
  destruct (simulate c (Z.to_nat (total_months c))) as [s | e'] eqn:Hs; cbn [bind].
  - pose proof (simulate_length _ _ _ Hs) as Hlen.
    destruct (St.ts s) as [| r0 rest] eqn:Ets.
    { simpl in Hlen. unfold total_months in Hlen. lia. }
    cbn [iloc_first bind].
    destruct (mortgage_payment_monthly c None) as [P | e'] eqn:HP; cbn [bind].
    2:{ intro H. injection H as <-. exact (payment_error _ _ HP). }
    unfold initial_cash_on_cash_percent.
    destruct (if String.eqb (rental_type c) "short_term"
              then calculate_monthly_revenue c (nightly_rate c)
              else calculate_monthly_revenue c (monthly_rent c)) as [v | e'] eqn:Hm;
      cbn [bind].
    2:{ intro H. injection H as <-.
        destruct (String.eqb (rental_type c) "short_term");
          exact (revenue_error _ _ _ Hm). }
    unfold fdiv. destruct (Qc_eq_bool (total_upfront c) 0); cbn [bind]; [congruence |].
    destruct (iloc_last_ok MonthRecord.monthly_cash_flow (r0 :: rest)) as [l Hl];
      [discriminate |].
    rewrite Hl. cbn [bind]. discriminate.
  - intro H. injection H as <-. exact (simulate_error _ _ _ Hs).
Qed.

(** ** Claims on failures *)

Lemma zero_upfront_config_valid : valid zero_upfront_config.
Proof. solve_valid. Qed.

Lemma coc_defined_upfront (c : PropertySim) (v : Qc) :
  initial_cash_on_cash_percent c = Ok v -> total_upfront c <> 0.
Proof.
  unfold initial_cash_on_cash_percent. intro H.
  apply bind_ok in H. destruct H as [m [_ H]].
  apply bind_ok in H. destruct H as [q [H _]].
  unfold fdiv in H. destruct (Qc_eq_bool (total_upfront c) 0) eqn:E; [discriminate |].
  apply Qc_eq_bool_false. exact E.
Qed.

Lemma coc_defined_revenue (c : PropertySim) (v : Qc) :
  initial_cash_on_cash_percent c = Ok v -> revenue_defined c.
Proof.
  unfold initial_cash_on_cash_percent, revenue_defined. intros H Hst.
  apply bind_ok in H. destruct H as [m [H _]].
  rewrite Hst in H. simpl in H. unfold calculate_monthly_revenue in H.
  rewrite Hst in H. simpl in H.
  apply bind_ok in H. destruct H as [q [H _]].
  unfold fdiv in H.
  destruct (Qc_eq_bool (avg_stay_length_nights c) 0) eqn:E; [discriminate |].
  apply Qc_eq_bool_false. exact E.
Qed.

(** C6, the behaviour of the code.  A valid configuration with neither down
    payment nor closing costs, or a short-term one with an average stay of 0
    nights, makes [run] raise [ZeroDivisionError]. *)
Theorem run_raises_on_zero_divisor (c : PropertySim) :
  valid c ->
  (down_payment_percent c = 0 /\ closing_costs_percent_of_price c = 0) \/
  (rental_type c = "short_term"%string /\ avg_stay_length_nights c = 0) ->
  run c = Raise ZeroDivisionError.
Proof.
  intros Hv Hcase.
  destruct (run c) as [[d c'] | e] eqn:Hrun.
  - exfalso.
    destruct (run_inv _ _ _ Hrun) as [s [res [_ [_ [_ [_ [_ [Hcoc _]]]]]]]].
    destruct Hcase as [[Hd Hc] | [Ht Hs]].
    + apply (coc_defined_upfront _ _ Hcoc).
      unfold total_upfront, down_payment, closing_costs, pct_to_dec.
      rewrite Hd, Hc. field. apply qz_nonzero. lia.
    + exact (coc_defined_revenue _ _ Hcoc Ht Hs).
  - f_equal. exact (run_error_kind c e (valid_years c Hv) Hrun).
Qed.


(** ** The sample points of the sweep *)

Lemma set_last_snoc (l : list Qc) (x v : Qc) : set_last (l ++ [x]) v = l ++ [v].
Proof.
  unfold set_last. rewrite rev_app_distr. simpl. rewrite rev_involutive. reflexivity.
Qed.


Lemma linspace_points (lower upper : Qc) (n : Z) :
  (2 <= n)%Z ->
  linspace lower upper n
  = Ok (map (sample_point lower upper n) (seq 0 (Z.to_nat n))).
Proof.
  intro Hn. unfold linspace.
  destruct (Z.ltb_spec n 0) as [G | _]; [lia |].
  destruct (Z.ltb_spec 0 (n - 1)) as [_ | G]; [| lia].
  destruct (Z.ltb_spec 1 n) as [_ | G]; [| lia].
  f_equal. rewrite map_map.
  assert (EN : Z.to_nat n = S (Z.to_nat (n - 1))) by lia.
  rewrite EN, seq_S, !map_app. cbn [map]. rewrite set_last_snoc. f_equal.
  - apply map_ext. intro i. unfold sample_point. ring.
  - f_equal. unfold sample_point. cbn [plus].
    replace (Z.of_nat (Z.to_nat (n - 1))) with (n - 1)%Z by lia.
    field. apply qz_nonzero. lia.
Qed.





(** ** One sample of the sweep *)

Lemma sweep_sample_inv (base_sim : PropertySim) (p : Qc) (row : SweepRow.t) :
  sweep_sample base_sim p = Ok row ->
  exists d c' res r0,
    run (replace_down_payment_percent base_sim p) = Ok (d, c') /\
    results c' = Some res /\
    nth_error d 0 = Some r0 /\
    row = row_of_run base_sim p r0 res.
Proof.
  unfold sweep_sample. intro H.
  apply bind_ok in H. destruct H as [[d c'] [Hrun H]]. cbn [fst snd] in H.
  destruct (run_inv _ _ _ Hrun) as [s [res [_ [_ [_ [Hres [_ [_ [_ [_ [r0 [H0 _]]]]]]]]]]]].
  unfold kpis in H. rewrite Hres in H. cbn [bind fst] in H.
  destruct d as [| r d]; [discriminate |]. injection H0 as ->.
  cbn [iloc_first bind] in H. injection H as <-.
  exists (r0 :: d), c', res, r0. repeat split; assumption.
Qed.

Lemma sweep_sample_ok (base_sim : PropertySim) (p : Qc) (d : DataFrame) (c' : PropertySim) :
  run (replace_down_payment_percent base_sim p) = Ok (d, c') ->
  exists row, sweep_sample base_sim p = Ok row.
Proof.
  intro Hrun. unfold sweep_sample. rewrite Hrun. cbn [bind fst snd].
  destruct (run_inv _ _ _ Hrun) as [s [res [_ [_ [_ [Hres [_ [_ [_ [_ [r0 [H0 _]]]]]]]]]]]].
  unfold kpis. rewrite Hres. cbn [bind fst].
  destruct d as [| r d]; [discriminate |]. cbn [iloc_first bind]. eauto.
Qed.

(** ** The sweep loop *)

Lemma sweep_loop_inv (base_sim : PropertySim) (range : list Qc)
    (acc rows : list SweepRow.t) :
  sweep_loop base_sim range acc = Ok rows ->
  exists new,
    rows = acc ++ new /\
    (List.length new <= List.length range)%nat /\
    (range <> [] -> new <> []) /\
    (forall i row, nth_error new i = Some row ->
       (exists p, nth_error range i = Some p /\ sweep_sample base_sim p = Ok row) /\
       ((S i < List.length new)%nat -> positive_row row = false)) /\
    ((List.length new < List.length range)%nat ->
     exists last, nth_error new (List.length new - 1) = Some last /\
                  positive_row last = true).
Proof.
  revert acc rows. induction range as [| p rest IH]; intros acc rows H.
  - simpl in H. injection H as <-. exists []. rewrite app_nil_r.
    split; [reflexivity |]. split; [simpl; lia |]. split; [congruence |]. split.
    + intros i row Hi. destruct i; discriminate.
    + simpl. lia.
  - cbn [sweep_loop] in H. apply bind_ok in H. destruct H as [row [Hrow H]].
    fold (positive_row row) in H.
    destruct (positive_row row) eqn:Epos.
    + injection H as <-. exists [row]%list.
      split; [reflexivity |]. split; [simpl; lia |]. split; [discriminate |]. split.
      * intros i r Hi. destruct i as [| i]; [| destruct i; discriminate].
        simpl in Hi. injection Hi as <-. split; [| simpl; lia].
        exists p. split; [reflexivity | exact Hrow].
      * intros _. exists row. split; [reflexivity | exact Epos].
    + destruct (IH _ _ H) as [new [E [Hlen [Hne [Hrows Hlast]]]]].
      exists (row :: new). rewrite E, <- app_assoc. simpl.
      split; [reflexivity |]. split; [lia |]. split; [discriminate |]. split.
      * intros [| i] r Hr.
        -- simpl in Hr. injection Hr as <-. split; [| intros _; exact Epos].
           exists p. split; [reflexivity | exact Hrow].
        -- simpl in Hr. destruct (Hrows i r Hr) as [Hp Hn]. split; [exact Hp |].
           intro Hi. apply Hn. lia.
      * intro Hlt.
        assert (Hnew : new <> []).
        { apply Hne. intro Er. subst rest. simpl in *. lia. }
        destruct (Hlast ltac:(lia)) as [last [Hl Hp]].
        exists last. split; [| exact Hp].
        destruct new as [| x new']; [congruence |]. simpl in *.
        rewrite Nat.sub_0_r in *. exact Hl.
Qed.



Lemma filter_head_find {A : Type} (f : A -> bool) (l : list A) :
  find f l = hd_error (filter f l).
Proof.
  induction l as [| a l IH]; [reflexivity |]. simpl.
  destruct (f a); [reflexivity | exact IH].
Qed.

(** What [down_payment_for_cashflow] returns, in terms of its loop. *)
Lemma down_payment_for_cashflow_inv (base_sim : PropertySim) (upper lower : Qc) (n : Z)
    (rows : list SweepRow.t) (a p : option Qc) :
  down_payment_for_cashflow base_sim upper lower n = Ok (rows, a, p) ->
  exists range,
    linspace lower upper n = Ok range /\
    sweep_loop base_sim range [] = Ok rows /\
    rows <> [] /\
    a = option_map SweepRow.down_payment (find positive_row rows) /\
    p = option_map SweepRow.down_payment_percentage (find positive_row rows).
Proof.
  unfold down_payment_for_cashflow. intro H.
  apply bind_ok in H. destruct H as [range [Hrange H]].
  apply bind_ok in H. destruct H as [rows' [Hloop H]].
  apply bind_ok in H. destruct H as [pos [Hpos H]].
  assert (Hne : rows' <> []).
  { intro E. subst rows'. discriminate Hpos. }
  assert (Epos : pos = filter positive_row rows').
  { unfold positive_rows in Hpos. destruct rows'; [discriminate |].
    injection Hpos as <-. reflexivity. }
  exists range. subst pos.
  destruct (filter positive_row rows') as [| r l] eqn:Ef;
    injection H as <- <- <-; rewrite !filter_head_find, Ef;
    repeat split; assumption.
Qed.


Lemma nth_error_seq_some (start len i j : nat) :
  nth_error (seq start len) i = Some j -> j = (start + i)%nat /\ (i < len)%nat.
Proof.
  intro H.
  assert (Hi : (i < len)%nat).
  { pose proof (proj1 (nth_error_Some (seq start len) i)) as G.
    rewrite length_seq in G. apply G. congruence. }
  split; [| exact Hi].
  apply (nth_error_nth _ _ 0%nat) in H. rewrite seq_nth in H by exact Hi. lia.
Qed.


(** ** Claims on the sweep *)


Lemma find_first {A : Type} (f : A -> bool) (l : list A) (r : A) :
  find f l = Some r ->
  exists i,
    nth_error l i = Some r /\ f r = true /\
    forall j x, (j < i)%nat -> nth_error l j = Some x -> f x = false.
Proof.
  induction l as [| a l IH]; [discriminate |]. simpl.
  destruct (f a) eqn:E.
  - intro H. injection H as <-. exists 0%nat.
    split; [reflexivity |]. split; [exact E |]. intros j x Hj. lia.
  - intro H. destruct (IH H) as [i [Hi [Hr Hb]]]. exists (S i).
    split; [exact Hi |]. split; [exact Hr |].
    intros [| j] x Hj Hx.
    + simpl in Hx. injection Hx as <-. exact E.
    + apply (Hb j x); [lia | exact Hx].
Qed.

(** C8.  The break-even pair returned by a sweep is the down-payment amount
    and percentage of the first row whose cash flow is positive, no earlier
    row being positive; otherwise both components are null, and they are both
    null exactly when no sampled percentage gives a positive first-month
    cash flow. *)
Theorem break_even_pair (base_sim : PropertySim) (upper lower : Qc) (n : Z)
    (rows : list SweepRow.t) (a p : option Qc) :
  down_payment_for_cashflow base_sim upper lower n = Ok (rows, a, p) ->
  ((a = None /\ p = None) \/
   exists i r,
     nth_error rows i = Some r /\
     0 < SweepRow.monthly_cash_flow r /\
     (forall j prev, (j < i)%nat -> nth_error rows j = Some prev ->
                     ~ 0 < SweepRow.monthly_cash_flow prev) /\
     a = Some (SweepRow.down_payment r) /\
     p = Some (SweepRow.down_payment_percentage r)) /\
  ((a = None /\ p = None) <->
   forall range q row,
     linspace lower upper n = Ok range -> In q range ->
     sweep_sample base_sim q = Ok row -> ~ 0 < SweepRow.monthly_cash_flow row) /\
  (a = None <-> p = None).
Proof.
  intro Hsweep.
  destruct (down_payment_for_cashflow_inv _ _ _ _ _ _ _ Hsweep)
    as [range [Hrange [Hloop [Hne [Ea Ep]]]]].
  destruct (sweep_loop_inv _ _ _ _ Hloop) as [new [E [Hlen [_ [Hrows Hlast]]]]].
  simpl in E. subst new.
  split; [| split].
  - destruct (find positive_row rows) as [r |] eqn:Ef.
    + right. destruct (find_first _ _ _ Ef) as [i [Hi [Hr Hb]]].
      exists i, r. split; [exact Hi |]. split; [apply Qcltb_true; exact Hr |].
      split; [| split; assumption].
      intros j prev Hj Hp Hpos. apply Qcltb_true in Hpos.
      specialize (Hb j prev Hj Hp). unfold positive_row in Hb. congruence.
    + left. split; assumption.
  - split.
    + intros [Ha _] range' q row Hrange' Hq Hs Hpos.
      rewrite Hrange in Hrange'. injection Hrange' as <-.
      assert (Ef : find positive_row rows = None).
      { destruct (find positive_row rows); [subst a; discriminate | reflexivity]. }
      assert (Hfull : List.length rows = List.length range).
      { destruct (Nat.lt_ge_cases (List.length rows) (List.length range)) as [G | G];
          [| lia].
        destruct (Hlast G) as [last [Hl Hp]].
        pose proof (find_none _ _ Ef last (nth_error_In _ _ Hl)). congruence. }
      apply In_nth_error in Hq. destruct Hq as [i Hi].
      assert (Hlt : (i < List.length rows)%nat).
      { rewrite Hfull. apply nth_error_Some. congruence. }
      destruct (nth_error rows i) as [r |] eqn:Hr;
        [| apply nth_error_None in Hr; lia].
      destruct (Hrows i r Hr) as [[q' [Hq' Hs']] _].
      assert (q' = q) by congruence. subst q'.
      assert (r = row) by congruence. subst r.
      pose proof (find_none _ _ Ef row (nth_error_In _ _ Hr)) as Hnp.
      apply Qcltb_true in Hpos. unfold positive_row in Hnp. congruence.
    + intro Hall.
      assert (Ef : find positive_row rows = None).
      { destruct (find positive_row rows) as [r |] eqn:Ef; [| reflexivity].
        exfalso. destruct (find_first _ _ _ Ef) as [i [Hi [Hr _]]].
        destruct (Hrows i r Hi) as [[q [Hq Hs]] _].
        apply (Hall range q r Hrange (nth_error_In _ _ Hq) Hs).
        apply Qcltb_true. exact Hr. }
      rewrite Ef in Ea, Ep. split; assumption.
  - destruct (find positive_row rows); subst a p; simpl; split; intro H;
      first [reflexivity | discriminate].
Qed.




(** ** The claims at the example configurations *)

(** The reference configuration runs to the end of its 24 months. *)
Lemma reference_config_runs :
  exists d c', run reference_config = Ok (d, c') /\ List.length d = 24%nat.
Proof.
  apply (run_ok reference_config); try reflexivity.
  - vm_compute. discriminate.
  - apply Qc_eq_bool_false. vm_compute. reflexivity.
  - intro H. discriminate H.
Qed.


(** The balance of the reference configuration, in exact arithmetic: paid
    off in the row of month 11. *)
Lemma balance_invariants_witness :
  valid reference_config /\
  exists d c',
    run reference_config = Ok (d, c') /\
    (forall m row next, nth_error d m = Some row -> nth_error d (S m) = Some next ->
       MonthRecord.balance next <= MonthRecord.balance row) /\
    exists row, nth_error d 11 = Some row /\ MonthRecord.balance row = 0.
Proof.
  split; [exact reference_config_valid |].
  destruct reference_config_runs as [d [c' [Hrun _]]].
  exists d, c'. split; [exact Hrun |].
  destruct (balance_invariants reference_config d c' reference_config_valid Hrun)
    as [_ [Hmono Hzero]].
  split; [exact Hmono |]. apply Hzero. vm_compute. discriminate.
Defined.

(** C3, amended, at the reference configuration: 24 rows and a positive
    constant. *)
Lemma payment_profile_full_horizon_witness :
  valid reference_config /\
  exists d c',
    run reference_config = Ok (d, c') /\
    List.length d = Z.to_nat (years reference_config * 12) /\
    exists P, 0 < P /\ payment_profile d P.
Proof.
  split; [exact reference_config_valid |].
  destruct reference_config_runs as [d [c' [Hrun _]]].
  exists d, c'. split; [exact Hrun |].
  destruct (payment_profile_full_horizon reference_config d c'
              reference_config_valid Hrun) as [Hlen [P [_ [Hpos Hprof]]]].
  split; [exact Hlen |]. exists P. split; [| exact Hprof].
  apply Hpos. reflexivity.
Defined.

(** C4 at the reference configuration. *)
Lemma annual_escalation_witness :
  exists d c',
    run reference_config = Ok (d, c') /\
    forall m row, nth_error d m = Some row ->
      MonthRecord.property_value row
      = purchase_price reference_config
        * (1 + appreciation_percent_per_year reference_config / qz 100) ^ (m / 12).
Proof.
  destruct reference_config_runs as [d [c' [Hrun _]]].
  exists d, c'. split; [exact Hrun |].
  intros m row Hrow.
  destruct (annual_escalation reference_config d c' Hrun) as [_ H].
  exact (proj1 (H m row Hrow)).
Defined.

(** C9 at the reference configuration. *)
Lemma payback_month_on_upfront_spec_witness :
  exists d c' res r0,
    run reference_config = Ok (d, c') /\
    results c' = Some res /\ nth_error d 0 = Some r0 /\
    (0 <= MonthRecord.cumulative_cash_flow r0 ->
     Results.payback_month_on_upfront res = Some 0%nat) /\
    (MonthRecord.cumulative_cash_flow r0 < 0 ->
     (forall m,
        Results.payback_month_on_upfront res = Some m <->
        exists row,
          nth_error d m = Some row /\
          total_upfront reference_config <= MonthRecord.cumulative_cash_flow row /\
          forall j prev, (j < m)%nat -> nth_error d j = Some prev ->
                         MonthRecord.cumulative_cash_flow prev
                         < total_upfront reference_config) /\
     (Results.payback_month_on_upfront res = None <->
      forall m row, nth_error d m = Some row ->
                    MonthRecord.cumulative_cash_flow row
                    < total_upfront reference_config)).
Proof.
  destruct reference_config_runs as [d [c' [Hrun _]]].
  destruct (payback_month_on_upfront_spec reference_config d c' Hrun)
    as [res [r0 [H1 [H2 [H3 H4]]]]].
  exists d, c', res, r0. repeat (split; [assumption |]). exact H4.
Defined.

(** C6 at a purchase with no down payment and no closing costs. *)
Lemma run_raises_on_zero_divisor_witness :
  valid zero_upfront_config /\
  down_payment_percent zero_upfront_config = 0 /\
  closing_costs_percent_of_price zero_upfront_config = 0 /\
  run zero_upfront_config = Raise ZeroDivisionError.
Proof.
  split; [exact zero_upfront_config_valid |].
  split; [reflexivity |]. split; [reflexivity |].
  apply (run_raises_on_zero_divisor zero_upfront_config zero_upfront_config_valid).
  left. split; reflexivity.
Defined.



(** C8 for the same sweep. *)
Lemma break_even_pair_witness :
  exists rows a p,
    down_payment_for_cashflow reference_config (qz 100) (qz 50) 2 = Ok (rows, a, p) /\
    (a = None <-> p = None) /\
    ((a = None /\ p = None) \/
     exists i r,
       nth_error rows i = Some r /\
       0 < SweepRow.monthly_cash_flow r /\
       a = Some (SweepRow.down_payment r) /\
       p = Some (SweepRow.down_payment_percentage r)).
Proof.
  destruct (down_payment_for_cashflow reference_config (qz 100) (qz 50) 2)
    as [[[rows a] p] | e] eqn:Hsweep; [| vm_compute in Hsweep; discriminate].
  exists rows, a, p. split; [reflexivity |].
  destruct (break_even_pair reference_config (qz 100) (qz 50) 2 rows a p Hsweep)
    as [H1 [_ H3]].
  split; [exact H3 |].
  destruct H1 as [H1 | [i [r [Hi [Hpos [_ [Ha Hp]]]]]]]; [left; exact H1 |].
  right. exists i, r. repeat split; assumption.
Defined.

(** * Further properties of the engine *)

(** ** Rows and the iterations that append them *)

Lemma row_body (c : PropertySim) (d : DataFrame) (c' : PropertySim)
    (m : nat) (row : MonthRecord.t) :
  run c = Ok (d, c') -> nth_error d m = Some row ->
  exists s s',
    simulate c m = Ok s /\ body_of c m s = Ok s' /\
    St.ts s = firstn m d /\ St.ts s' = St.ts s ++ [row] /\
    month_step c m s s' row.
Proof.
  intros Hrun Hrow.
  destruct (row_step _ _ _ Hrun _ _ Hrow) as [s [s' [Hs [Hs' [Ets Hstep]]]]].
  exists s, s'. split; [exact Hs |]. split.
  - rewrite simulate_S, Hs in Hs'. exact Hs'.
  - split; [exact Ets |]. split; [exact (step_ts _ _ _ _ _ Hstep) | exact Hstep].
Qed.

Lemma body_of_date (c : PropertySim) (m : nat) (s s' : St.t) (row : MonthRecord.t) :
  body_of c m s = Ok s' -> St.ts s' = St.ts s ++ [row] ->
  MonthRecord.date row = St.date s /\ St.date s' = next_month (St.date s) /\
  St.cumulative_principal s' = St.cumulative_principal s + MonthRecord.principal row.
Proof.
  unfold body_of, loop_body. intros H Hts.
  apply bind_ok in H. destruct H as [eff [_ H]]. injection H as <-.
  cbn [St.ts St.date St.cumulative_principal] in *.
  apply app_inj_tail in Hts. destruct Hts as [_ <-]. cbn. repeat split.
Qed.

Lemma firstn_S_nth {A : Type} (l : list A) (m : nat) (x : A) :
  nth_error l m = Some x -> firstn (S m) l = firstn m l ++ [x].
Proof.
  revert m. induction l as [| a l IH]; intros m H.
  - destruct m; discriminate.
  - destruct m as [| m].
    + simpl in H. injection H as ->. reflexivity.
    + simpl in H.
      change (firstn (S (S m)) (a :: l)) with (a :: firstn (S m) l).
      change (firstn (S m) (a :: l)) with (a :: firstn m l).
      rewrite (IH m H). reflexivity.
Qed.

Lemma column_sum_snoc (col : MonthRecord.t -> Qc) (rows : list MonthRecord.t)
    (r : MonthRecord.t) :
  column_sum col (rows ++ [r]) = column_sum col rows + col r.
Proof.
  induction rows as [| a rows IH]; simpl.
  - ring.
  - rewrite IH. ring.
Qed.

(** ** Dates and indices *)

Lemma simulate_date (c : PropertySim) (k : nat) (s : St.t) :
  simulate c k = Ok s ->
  St.date s = {| origin := start_date c; months_after := k |}.
Proof.
  revert s. induction k as [| k IH]; intros s H.
  - apply simulate_0 in H. destruct H as [P [_ ->]]. reflexivity.
  - rewrite simulate_S in H. apply bind_ok in H. destruct H as [s0 [H0 H1]].
    pose proof H1 as Hb. apply body_of_step in H1. destruct H1 as [row Hs].
    destruct (body_of_date _ _ _ _ _ Hb (step_ts _ _ _ _ _ Hs)) as [_ [E _]].
    rewrite E, (IH _ H0). reflexivity.
Qed.

(** X1.  Row [m] of a run carries the month index [m] and the date reached
    by [m] one-month offsets from [start_date]: indices count up from 0
    without gaps and the date advances by one month per row. *)
Theorem rows_are_indexed_by_month (c : PropertySim) (d : DataFrame) (c' : PropertySim) :
  run c = Ok (d, c') ->
  forall m row, nth_error d m = Some row ->
    MonthRecord.month_index row = m /\
    MonthRecord.date row = {| origin := start_date c; months_after := m |}.
Proof.
  intros Hrun m row Hrow.
  destruct (row_body _ _ _ _ _ Hrun Hrow) as [s [s' [Hs [Hb [_ [Hts Hstep]]]]]].
  split; [exact (step_index _ _ _ _ _ Hstep) |].
  destruct (body_of_date _ _ _ _ _ Hb Hts) as [E _].
  rewrite E. exact (simulate_date _ _ _ Hs).
Qed.

(** ** Running sums *)

Lemma simulate_cumulative (c : PropertySim) (k : nat) (s : St.t) :
  simulate c k = Ok s ->
  St.cumulative_cf s = column_sum MonthRecord.monthly_cash_flow (St.ts s) /\
  St.cumulative_principal s = column_sum MonthRecord.principal (St.ts s) /\
  St.balance s + column_sum MonthRecord.principal (St.ts s) = loan_amount c.
Proof.
  revert s. induction k as [| k IH]; intros s H.
  - apply simulate_0 in H. destruct H as [P [_ ->]]. simpl.
    repeat split; ring.
  - rewrite simulate_S in H. apply bind_ok in H. destruct H as [s0 [H0 H1]].
    pose proof H1 as Hb. apply body_of_step in H1. destruct H1 as [row Hs].
    destruct (IH _ H0) as [E1 [E2 E3]].
    destruct (body_of_date _ _ _ _ _ Hb (step_ts _ _ _ _ _ Hs)) as [_ [_ Ep]].
    destruct (month_step_balance _ _ _ _ _ Hs (simulate_balance_nonneg _ _ _ H0))
      as [_ [_ [Eb _]]].
    rewrite (step_ts _ _ _ _ _ Hs), !column_sum_snoc.
    split; [| split].
    + rewrite (step_cumulative_cf _ _ _ _ _ Hs), (step_cumulative _ _ _ _ _ Hs), E1.
      reflexivity.
    + rewrite Ep, E2. reflexivity.
    + rewrite Eb, <- E3. ring.
Qed.

(** X2.  [cumulative_cash_flow] is the running sum of [monthly_cash_flow]:
    the value in row [m] is the sum over rows 0..m, and the summary's
    cumulative cash flow is the sum over all rows. *)
Theorem cumulative_cash_flow_is_running_sum
    (c : PropertySim) (d : DataFrame) (c' : PropertySim) :
  run c = Ok (d, c') ->
  (forall m row, nth_error d m = Some row ->
     MonthRecord.cumulative_cash_flow row
     = column_sum MonthRecord.monthly_cash_flow (firstn (S m) d)) /\
  exists res,
    results c' = Some res /\
    Results.cumulative_cash_flow res = column_sum MonthRecord.monthly_cash_flow d.
Proof.
  intro Hrun. split.
  - intros m row Hrow.
    destruct (row_step _ _ _ Hrun _ _ Hrow) as [s [s' [_ [Hs' [Ets Hstep]]]]].
    destruct (simulate_cumulative _ _ _ Hs') as [E _].
    rewrite <- (step_cumulative_cf _ _ _ _ _ Hstep), E, (step_ts _ _ _ _ _ Hstep), Ets.
    rewrite (firstn_S_nth _ _ _ Hrow). reflexivity.
  - destruct (run_inv _ _ _ Hrun) as [s [res [Hs [Hd [_ [Hres [_ [_ [Ec _]]]]]]]]].
    exists res. split; [exact Hres |].
    rewrite Ec, Hd. exact (proj1 (simulate_cumulative _ _ _ Hs)).
Qed.

(** X3.  Principal is conserved: in every row the balance plus the principal
    paid in the rows 0..m equals the loan amount, and the interest of the
    row is the balance before the payment times the monthly rate. *)
Theorem principal_is_conserved (c : PropertySim) (d : DataFrame) (c' : PropertySim) :
  run c = Ok (d, c') ->
  forall m row, nth_error d m = Some row ->
    MonthRecord.balance row + column_sum MonthRecord.principal (firstn (S m) d)
    = loan_amount c /\
    MonthRecord.interest row = balance_before c d m * monthly_rate c.
Proof.
  intros Hrun m row Hrow.
  destruct (row_step _ _ _ Hrun _ _ Hrow) as [s [s' [_ [Hs' [Ets Hstep]]]]].
  split.
  - destruct (simulate_cumulative _ _ _ Hs') as [_ [_ E]].
    rewrite (step_row_balance _ _ _ _ _ Hstep), (firstn_S_nth _ _ _ Hrow), <- Ets,
      <- (step_ts _ _ _ _ _ Hstep). exact E.
  - destruct (row_previous_balance _ _ _ Hrun _ _ Hrow) as [s0 [s0' [Hs0 [Hstep0 Eb]]]].
    rewrite (step_interest _ _ _ _ _ Hstep0), Eb. reflexivity.
Qed.

(** ** The summary and the last row *)

Lemma iloc_last_nth {A : Type} (col : MonthRecord.t -> A) (d : DataFrame) (v : A) :
  iloc_last col d = Ok v ->
  exists r, nth_error d (List.length d - 1) = Some r /\ v = col r.
Proof.
  unfold iloc_last. intro H.
  destruct (rev d) as [| r l] eqn:E; [discriminate |]. injection H as <-.
  apply (f_equal (@rev _)) in E. rewrite rev_involutive in E. simpl in E.
  exists r. split; [| reflexivity].
  rewrite E, length_app. simpl.
  rewrite nth_error_app2 by lia.
  replace (List.length (rev l) + 1 - 1 - List.length (rev l))%nat with 0%nat by lia.
  reflexivity.
Qed.

Lemma run_summary (c : PropertySim) (d : DataFrame) (c' : PropertySim) :
  run c = Ok (d, c') ->
  exists s res last,
    simulate c (Z.to_nat (total_months c)) = Ok s /\
    d = St.ts s /\
    results c' = Some res /\
    nth_error d (List.length d - 1) = Some last /\
    Results.ending_monthly_cash_flow res = MonthRecord.monthly_cash_flow last /\
    Results.cumulative_cash_flow res = St.cumulative_cf s /\
    Results.terminal_equity res = St.current_price s - St.balance s /\
    Results.total_invested_est res
    = total_upfront c + Qcabs (py_min 0 (St.cumulative_cf s)) /\
    Results.total_return_est res
    = St.current_price s - St.balance s
      - (purchase_price c - down_payment c) + St.cumulative_cf s.
Proof.
  unfold run. intro H.
  apply bind_ok in H. destruct H as [s [Hs H]].
  apply bind_ok in H. destruct H as [fc [Hfc H]].
  apply bind_ok in H. destruct H as [mm [Hmm H]].
  apply bind_ok in H. destruct H as [coc [Hcoc H]].
  apply bind_ok in H. destruct H as [lcf [Hlcf H]].
  injection H as <- <-.
  destruct (iloc_last_nth _ _ _ Hlcf) as [last [Hlast ->]].
  eexists s, _, last. cbn.
  repeat (split; [first [eassumption | reflexivity] |]). reflexivity.
Qed.

(** X4.  The summary is read off the last row: [terminal_equity] is its
    property value less its balance, [ending_monthly_cash_flow] and
    [cumulative_cash_flow] are its cash-flow fields.  [total_invested_est]
    is never below [total_upfront]: it is [total_upfront] when the cumulative
    cash flow is not negative and [total_upfront] plus the shortfall when it
    is; [total_return_est] is the terminal equity less the financed part of
    the price plus the cumulative cash flow. *)
Theorem summary_reads_last_row (c : PropertySim) (d : DataFrame) (c' : PropertySim) :
  run c = Ok (d, c') ->
  exists res last,
    results c' = Some res /\
    nth_error d (List.length d - 1) = Some last /\
    Results.terminal_equity res
    = MonthRecord.property_value last - MonthRecord.balance last /\
    Results.ending_monthly_cash_flow res = MonthRecord.monthly_cash_flow last /\
    Results.cumulative_cash_flow res = MonthRecord.cumulative_cash_flow last /\
    total_upfront c <= Results.total_invested_est res /\
    (0 <= Results.cumulative_cash_flow res ->
     Results.total_invested_est res = total_upfront c) /\
    (Results.cumulative_cash_flow res <= 0 ->
     Results.total_invested_est res
     = total_upfront c - Results.cumulative_cash_flow res) /\
    Results.total_return_est res
    = Results.terminal_equity res - (purchase_price c - down_payment c)
      + Results.cumulative_cash_flow res.
Proof.
  intro Hrun.
  destruct (run_summary _ _ _ Hrun)
    as [s [res [last [Hs [Hd [Hres [Hlast [Ee [Ec [Et [Ei Er]]]]]]]]]]].
  destruct (row_step _ _ _ Hrun _ _ Hlast) as [s0 [s' [_ [Hs' [_ Hstep]]]]].
  assert (Hlen : List.length d = Z.to_nat (total_months c)).
  { rewrite Hd. exact (simulate_length _ _ _ Hs). }
  assert (Hpos : (0 < List.length d)%nat).
  { apply Nat.le_lt_trans with (List.length d - 1)%nat; [lia |].
    apply nth_error_Some. congruence. }
  replace (S (List.length d - 1)) with (Z.to_nat (total_months c)) in Hs' by lia.
  assert (s' = s) by congruence. subst s'.
  exists res, last. split; [exact Hres |]. split; [exact Hlast |].
  split.
  { rewrite Et, (step_value _ _ _ _ _ Hstep), (step_row_balance _ _ _ _ _ Hstep).
    reflexivity. }
  split; [exact Ee |].
  split.
  { rewrite Ec. exact (step_cumulative_cf _ _ _ _ _ Hstep). }
  rewrite Ei, Er, Et, Ec.
  split; [| split; [| split]].
  - pose proof (Qcabs_nonneg (py_min 0 (St.cumulative_cf s))) as G.
    revert G. generalize (Qcabs (py_min 0 (St.cumulative_cf s))).
    intros a G. qc2q. lra.
  - intro Hc. destruct (py_min_cases 0 (St.cumulative_cf s)) as [[G _] | [_ E]].
    + exfalso. exact (Qcle_not_lt _ _ Hc G).
    + rewrite E, Qcabs_pos by apply Qcle_refl. ring.
  - intro Hc. destruct (py_min_cases 0 (St.cumulative_cf s)) as [[_ E] | [G E]].
    + rewrite E, Qcabs_neg by exact Hc. ring.
    + assert (Ez : St.cumulative_cf s = 0) by (apply Qcle_antisym; assumption).
      rewrite E, Ez, Qcabs_pos by apply Qcle_refl. ring.
  - reflexivity.
Qed.

(** X1 at the reference configuration. *)
Lemma rows_are_indexed_by_month_witness :
  exists d c',
    run reference_config = Ok (d, c') /\
    forall m row, nth_error d m = Some row ->
      MonthRecord.month_index row = m /\
      MonthRecord.date row
      = {| origin := start_date reference_config; months_after := m |}.
Proof.
  destruct reference_config_runs as [d [c' [Hrun _]]].
  exists d, c'. split; [exact Hrun |].
  exact (rows_are_indexed_by_month reference_config d c' Hrun).
Defined.

(** X2 at the reference configuration. *)
Lemma cumulative_cash_flow_is_running_sum_witness :
  exists d c' res,
    run reference_config = Ok (d, c') /\
    results c' = Some res /\
    Results.cumulative_cash_flow res = column_sum MonthRecord.monthly_cash_flow d.
Proof.
  destruct reference_config_runs as [d [c' [Hrun _]]].
  destruct (cumulative_cash_flow_is_running_sum reference_config d c' Hrun)
    as [_ [res [H1 H2]]].
  exists d, c', res. auto.
Defined.

(** X3 at the reference configuration. *)
Lemma principal_is_conserved_witness :
  exists d c',
    run reference_config = Ok (d, c') /\
    forall m row, nth_error d m = Some row ->
      MonthRecord.balance row + column_sum MonthRecord.principal (firstn (S m) d)
      = loan_amount reference_config.
Proof.
  destruct reference_config_runs as [d [c' [Hrun _]]].
  exists d, c'. split; [exact Hrun |].
  intros m row Hrow.
  exact (proj1 (principal_is_conserved reference_config d c' Hrun m row Hrow)).
Defined.

(** X4 at the reference configuration. *)
Lemma summary_reads_last_row_witness :
  exists d c' res last,
    run reference_config = Ok (d, c') /\
    results c' = Some res /\
    nth_error d (List.length d - 1) = Some last /\
    Results.terminal_equity res
    = MonthRecord.property_value last - MonthRecord.balance last /\
    total_upfront reference_config <= Results.total_invested_est res.
Proof.
  destruct reference_config_runs as [d [c' [Hrun _]]].
  destruct (summary_reads_last_row reference_config d c' Hrun)
    as [res [last [H1 [H2 [H3 [_ [_ [H4 _]]]]]]]].
  exists d, c', res, last. auto.
Defined.

(** ** The amortization table *)

Lemma row_on_schedule (c : PropertySim) (d : DataFrame) (c' : PropertySim) (P : Qc)
    (m : nat) (row : MonthRecord.t) :
  valid c -> run c = Ok (d, c') -> mortgage_payment_monthly c None = Ok P ->
  nth_error d m = Some row -> (m < term_months c)%nat ->
  MonthRecord.mortgage_payment row = P /\
  MonthRecord.interest row + MonthRecord.principal row = P /\
  MonthRecord.balance row
  = ideal_balance (loan_amount c) P (1 + monthly_rate c) (S m).
Proof.
  intros Hv Hrun HP Hrow Hm.
  destruct (row_step _ _ _ Hrun _ _ Hrow) as [s [s' [Hs [Hs' [_ Hstep]]]]].
  destruct (simulate_ideal c Hv P HP m s ltac:(lia) Hs) as [Eb Em].
  specialize (Em Hm).
  destruct (simulate_ideal c Hv P HP (S m) s' ltac:(lia) Hs') as [Eb' _].
  destruct (schedule_step _ _ _ _ (monthly_rate_nonneg c Hv) (loan_amount_nonneg c)
              (term_months_pos c Hv) (payment_annuity c Hv P HP) m Hm) as [E1 _].
  split; [| split].
  - rewrite (step_payment _ _ _ _ _ Hstep). exact Em.
  - rewrite (step_interest _ _ _ _ _ Hstep), (step_principal _ _ _ _ _ Hstep).
    rewrite Em, Eb, E1. ring.
  - rewrite (step_row_balance _ _ _ _ _ Hstep). exact Eb'.
Qed.

Lemma schedule_sums (c : PropertySim) (d : DataFrame) (c' : PropertySim) (P : Qc)
    (k : nat) :
  valid c -> run c = Ok (d, c') -> mortgage_payment_monthly c None = Ok P ->
  (k <= term_months c)%nat -> (k <= List.length d)%nat ->
  column_sum MonthRecord.interest (firstn k d)
  + column_sum MonthRecord.principal (firstn k d)
  = qz (Z.of_nat k) * P.
Proof.
  intros Hv Hrun HP. induction k as [| k IH]; intros Hk Hlen.
  - simpl. replace (qz 0) with 0 by (apply Qc_is_canon; reflexivity). ring.
  - destruct (nth_error d k) as [row |] eqn:Hrow;
      [| apply nth_error_None in Hrow; lia].
    rewrite (firstn_S_nth _ _ _ Hrow), !column_sum_snoc.
    destruct (row_on_schedule c d c' P k row Hv Hrun HP Hrow ltac:(lia))
      as [_ [E _]].
    specialize (IH ltac:(lia) ltac:(lia)).
    assert (Eq : qz (Z.of_nat (S k)) = qz (Z.of_nat k) + 1).
    { rewrite Nat2Z.inj_succ. unfold Z.succ.
      qc2q. unfold Qeq. simpl. destruct (Z.of_nat k); lia. }
    rewrite Eq.
    transitivity
      ((column_sum MonthRecord.interest (firstn k d)
        + column_sum MonthRecord.principal (firstn k d))
       + (MonthRecord.interest row + MonthRecord.principal row)); [ring |].
    rewrite IH, E. ring.
Qed.

(** X5.  The amortization table of a valid configuration, in exact
    arithmetic.  In every row of a month before the end of the term the
    payment is the fixed payment [P], interest and principal add up to [P],
    and the balance is the closed form [L q^(m+1) - P (1 + q + ... + q^m)]
    with [q = 1 + r].  When the horizon covers the term, the interest paid
    over the term is [n P - L]. *)
Theorem amortization_table (c : PropertySim) (d : DataFrame) (c' : PropertySim) (P : Qc) :
  valid c -> run c = Ok (d, c') -> mortgage_payment_monthly c None = Ok P ->
  (forall m row, nth_error d m = Some row -> (m < term_months c)%nat ->
     MonthRecord.mortgage_payment row = P /\
     MonthRecord.interest row + MonthRecord.principal row = P /\
     MonthRecord.balance row
     = loan_amount c * (1 + monthly_rate c) ^ (S m)
       - P * annuity (1 + monthly_rate c) (S m)) /\
  ((amort_years c <= years c)%Z ->
   column_sum MonthRecord.principal (firstn (term_months c) d) = loan_amount c /\
   column_sum MonthRecord.interest (firstn (term_months c) d)
   = qz (amort_years c * 12) * P - loan_amount c).
Proof.
  intros Hv Hrun HP. split.
  - intros m row Hrow Hm.
    exact (row_on_schedule c d c' P m row Hv Hrun HP Hrow Hm).
  - intro Hy. pose proof (valid_amort c Hv) as Ha.
    pose proof (term_months_pos c Hv) as HN.
    assert (Hlen : (term_months c <= List.length d)%nat).
    { rewrite (run_length _ _ _ Hrun). unfold term_months, total_months. lia. }
    pose proof (schedule_sums c d c' P (term_months c) Hv Hrun HP (le_n _) Hlen) as Hsum.
    destruct (nth_error d (term_months c - 1)) as [row |] eqn:Hrow;
      [| apply nth_error_None in Hrow; lia].
    assert (Hcons : MonthRecord.balance row
                    + column_sum MonthRecord.principal (firstn (term_months c) d)
                    = loan_amount c).
    { destruct (row_step _ _ _ Hrun _ _ Hrow) as [s [s' [_ [Hs' [Ets Hstep]]]]].
      destruct (simulate_cumulative _ _ _ Hs') as [_ [_ E]].
      replace (term_months c) with (S (term_months c - 1)) at 1 by lia.
      rewrite (step_row_balance _ _ _ _ _ Hstep), (firstn_S_nth _ _ _ Hrow), <- Ets,
        <- (step_ts _ _ _ _ _ Hstep). exact E. }
    destruct (row_on_schedule c d c' P _ row Hv Hrun HP Hrow ltac:(lia))
      as [_ [_ Eb]].
    replace (S (term_months c - 1)) with (term_months c) in Eb by lia.
    assert (Ez : MonthRecord.balance row = 0).
    { rewrite Eb. fold (ideal_balance (loan_amount c) P (1 + monthly_rate c)
                          (term_months c)).
      apply ideal_N. exact (payment_annuity c Hv P HP). }
    rewrite Ez in Hcons.
    assert (Ep : column_sum MonthRecord.principal (firstn (term_months c) d)
                 = loan_amount c).
    { rewrite <- Hcons. ring. }
    split; [exact Ep |].
    rewrite Ep in Hsum.
    assert (En : qz (Z.of_nat (term_months c)) = qz (amort_years c * 12)).
    { unfold term_months. rewrite Z2Nat.id by lia. reflexivity. }
    rewrite <- En, <- Hsum. ring.
Qed.

(** X5 at the reference configuration. *)
Lemma amortization_table_witness :
  valid reference_config /\
  exists d c' P,
    run reference_config = Ok (d, c') /\
    mortgage_payment_monthly reference_config None = Ok P /\
    column_sum MonthRecord.interest (firstn (term_months reference_config) d)
    = qz (amort_years reference_config * 12) * P - loan_amount reference_config.
Proof.
  split; [exact reference_config_valid |].
  destruct reference_config_runs as [d [c' [Hrun _]]].
  destruct (payment_defined reference_config reference_config_valid) as [P [HP _]].
  exists d, c', P. split; [exact Hrun |]. split; [exact HP |].
  destruct (amortization_table reference_config d c' P reference_config_valid Hrun HP)
    as [_ H].
  apply H. vm_compute. discriminate.
Defined.

(** ** Fields that a long-term run does not read *)

Section LongTerm.
Variables c1 c2 : PropertySim.
Hypothesis H1 : rental_type c1 <> "short_term"%string.
Hypothesis H2 : rental_type c2 <> "short_term"%string.
Hypothesis Hagree : agree_long_term c1 c2.

Lemma agree_revenue (b : Qc) :
  calculate_monthly_revenue c1 b = calculate_monthly_revenue c2 b.
Proof.
  unfold calculate_monthly_revenue.
  apply String.eqb_neq in H1. apply String.eqb_neq in H2.
  rewrite H1, H2, (agree_vacancy _ _ Hagree). reflexivity.
Qed.

Lemma agree_payment :
  mortgage_payment_monthly c1 None = mortgage_payment_monthly c2 None.
Proof.
  unfold mortgage_payment_monthly, loan_amount, down_payment, monthly_rate.
  rewrite (agree_price _ _ Hagree), (agree_down _ _ Hagree),
    (agree_interest _ _ Hagree), (agree_amort _ _ Hagree). reflexivity.
Qed.

Lemma agree_body (m : nat) (s : St.t) : body_of c1 m s = body_of c2 m s.
Proof.
  unfold body_of, loop_body, monthly_rate.
  rewrite (agree_growth _ _ Hagree), (agree_appreciation _ _ Hagree),
    (agree_tax _ _ Hagree), (agree_insurance _ _ Hagree),
    (agree_maintenance _ _ Hagree), (agree_other _ _ Hagree),
    (agree_interest _ _ Hagree).
  rewrite agree_revenue. reflexivity.
Qed.

Lemma agree_init (P : Qc) : loop_init c1 P = loop_init c2 P.
Proof.
  unfold loop_init, loan_amount, down_payment, tax_yearly, insurance_yearly,
    maintenance_yearly.
  apply String.eqb_neq in H1. apply String.eqb_neq in H2.
  rewrite H1, H2.
  rewrite (agree_price _ _ Hagree), (agree_down _ _ Hagree),
    (agree_tax _ _ Hagree), (agree_insurance _ _ Hagree),
    (agree_maintenance _ _ Hagree), (agree_rent _ _ Hagree),
    (agree_start _ _ Hagree). reflexivity.
Qed.

Lemma agree_for_range (count start : nat) (s : St.t) :
  for_range (body_of c1) start count s = for_range (body_of c2) start count s.
Proof.
  revert start s. induction count as [| k IH]; intros start s; simpl.
  - reflexivity.
  - rewrite agree_body. destruct (body_of c2 start s) as [s' | e]; simpl.
    + apply IH.
    + reflexivity.
Qed.

Lemma agree_simulate (k : nat) : simulate c1 k = simulate c2 k.
Proof.
  unfold simulate. fold (body_of c1). fold (body_of c2).
  rewrite agree_payment.
  destruct (mortgage_payment_monthly c2 None) as [P | e]; simpl.
  - rewrite agree_init. apply agree_for_range.
  - reflexivity.
Qed.

Lemma agree_coc :
  initial_cash_on_cash_percent c1 = initial_cash_on_cash_percent c2.
Proof.
  unfold initial_cash_on_cash_percent, total_upfront, down_payment, closing_costs,
    tax_yearly, insurance_yearly, maintenance_yearly.
  pose proof (agree_revenue (monthly_rent c1)) as E.
  apply String.eqb_neq in H1. apply String.eqb_neq in H2.
  rewrite H1, H2, E.
  rewrite (agree_price _ _ Hagree), (agree_down _ _ Hagree),
    (agree_tax _ _ Hagree), (agree_insurance _ _ Hagree),
    (agree_maintenance _ _ Hagree), (agree_rent _ _ Hagree),
    (agree_other _ _ Hagree), (agree_closing _ _ Hagree). reflexivity.
Qed.

Lemma agree_run_ok (d : DataFrame) (c1' : PropertySim) :
  run c1 = Ok (d, c1') ->
  exists c2', run c2 = Ok (d, c2') /\ results c2' = results c1'.
Proof.
  unfold run. intro H.
  apply bind_ok in H. destruct H as [s [Hs H]].
  apply bind_ok in H. destruct H as [fc [Hfc H]].
  apply bind_ok in H. destruct H as [mm [Hmm H]].
  apply bind_ok in H. destruct H as [coc [Hcoc H]].
  apply bind_ok in H. destruct H as [lcf [Hlcf H]].
  injection H as <- <-.
  unfold total_months in *.
  rewrite <- agree_simulate, <- agree_payment, <- agree_coc,
    <- (agree_years _ _ Hagree), Hs.
  cbn [bind]. rewrite Hfc. cbn [bind]. rewrite Hmm. cbn [bind].
  rewrite Hcoc. cbn [bind]. rewrite Hlcf. cbn [bind].
  eexists. split; [reflexivity |]. cbn [results].
  unfold total_upfront, down_payment, closing_costs.
  rewrite (agree_price _ _ Hagree), (agree_down _ _ Hagree),
    (agree_closing _ _ Hagree). reflexivity.
Qed.

Lemma agree_run_error (e : exn) : run c1 = Raise e -> run c2 = Raise e.
Proof.
  unfold run, total_months.
  rewrite <- agree_simulate, <- agree_payment, <- agree_coc,
    <- (agree_years _ _ Hagree).
  destruct (simulate c1 (Z.to_nat (years c1 * 12))) as [s | e1]; cbn [bind];
    [| exact (fun H => H)].
  destruct (iloc_first MonthRecord.cumulative_cash_flow (St.ts s)) as [fc | e1];
    cbn [bind]; [| exact (fun H => H)].
  destruct (mortgage_payment_monthly c1 None) as [mm | e1];
    cbn [bind]; [| exact (fun H => H)].
  destruct (initial_cash_on_cash_percent c1) as [coc | e1];
    cbn [bind]; [| exact (fun H => H)].
  destruct (iloc_last MonthRecord.monthly_cash_flow (St.ts s)) as [lcf | e1];
    cbn [bind]; [| exact (fun H => H)].
  discriminate.
Qed.
End LongTerm.

(** X6.  A rental type other than [short_term] is simulated as a long-term
    rental, whatever the string, and such a run reads none of the short-term
    fields: two configurations that are not short-term and agree on the
    fields listed in [agree_long_term] produce the same frame and the same
    summary, or raise the same exception. *)
Theorem long_term_run_ignores_short_term_fields (c1 c2 : PropertySim) :
  rental_type c1 <> "short_term"%string ->
  rental_type c2 <> "short_term"%string ->
  agree_long_term c1 c2 ->
  (forall d c1', run c1 = Ok (d, c1') ->
     exists c2', run c2 = Ok (d, c2') /\ results c2' = results c1') /\
  (forall e, run c1 = Raise e -> run c2 = Raise e).
Proof.
  intros H1 H2 Hagree. split.
  - intros d c1'. apply agree_run_ok; assumption.
  - intro e. apply agree_run_error; assumption.
Qed.

(** X6 for the reference configuration and the same purchase under an
    unknown rental type with other short-term figures. *)
Lemma long_term_run_ignores_short_term_fields_witness :
  exists d c1' c2',
    run reference_config = Ok (d, c1') /\
    run vacation_config = Ok (d, c2') /\
    results c2' = results c1'.
Proof.
  destruct reference_config_runs as [d [c1' [Hrun _]]].
  assert (H1 : rental_type reference_config <> "short_term"%string) by discriminate.
  assert (H2 : rental_type vacation_config <> "short_term"%string) by discriminate.
  assert (A : agree_long_term reference_config vacation_config)
    by (split; reflexivity).
  destruct (long_term_run_ignores_short_term_fields reference_config vacation_config
              H1 H2 A) as [H _].
  destruct (H d c1' Hrun) as [c2' [Hr He]].
  exists d, c1', c2'. auto.
Defined.

(** ** The first month *)

Lemma first_row (c : PropertySim) (d : DataFrame) (c' : PropertySim) (r0 : MonthRecord.t) :
  run c = Ok (d, c') -> nth_error d 0 = Some r0 ->
  exists P,
    mortgage_payment_monthly c None = Ok P /\
    MonthRecord.mortgage_payment r0 = P /\
    calculate_monthly_revenue c (initial_base_rate c)
    = Ok (MonthRecord.effective_rent r0) /\
    MonthRecord.expenses r0
    = tax_yearly c / qz 12 + insurance_yearly c / qz 12
      + maintenance_yearly c / qz 12 + other_costs_monthly c /\
    MonthRecord.monthly_cash_flow r0
    = MonthRecord.effective_rent r0 - MonthRecord.expenses r0 - P.
Proof.
  intros Hrun Hrow.
  destruct (row_step _ _ _ Hrun _ _ Hrow) as [s [s' [Hs [_ [_ Hstep]]]]].
  apply simulate_0 in Hs. destruct Hs as [P [HP ->]].
  exists P. split; [exact HP |].
  pose proof (step_rent _ _ _ _ _ Hstep) as Hrent.
  pose proof (step_expenses _ _ _ _ _ Hstep) as Hexp.
  rewrite (step_base_rate _ _ _ _ _ Hstep) in Hrent.
  rewrite (step_tax _ _ _ _ _ Hstep), (step_ins _ _ _ _ _ Hstep),
    (step_maint _ _ _ _ _ Hstep) in Hexp.
  cbn in Hrent, Hexp.
  split; [exact (step_payment _ _ _ _ _ Hstep) |].
  split; [exact Hrent |]. split; [exact Hexp |].
  rewrite (step_cash_flow _ _ _ _ _ Hstep). reflexivity.
Qed.

(** ** The first-month cash flow as a function of the down payment *)

Lemma clamp_mono (x y : Qc) : x <= y -> clamp_nonnegative x <= clamp_nonnegative y.
Proof.
  intro H. unfold clamp_nonnegative.
  destruct (py_max_cases 0 x) as [[Hx ->] | [Hx ->]];
    destruct (py_max_cases 0 y) as [[Hy ->] | [Hy ->]].
  - exact H.
  - apply Qcle_trans with y; assumption.
  - exact (Qclt_le_weak _ _ Hy).
  - apply Qcle_refl.
Qed.

Lemma loan_amount_antitone (base_sim : PropertySim) (p1 p2 : Qc) :
  0 <= purchase_price base_sim -> p1 <= p2 ->
  loan_amount (replace_down_payment_percent base_sim p2)
  <= loan_amount (replace_down_payment_percent base_sim p1) /\
  down_payment (replace_down_payment_percent base_sim p1)
  <= down_payment (replace_down_payment_percent base_sim p2).
Proof.
  intros Hprice Hp. unfold loan_amount, down_payment, pct_to_dec.
  cbn [purchase_price down_payment_percent replace_down_payment_percent].
  assert (G : purchase_price base_sim * (p1 / qz 100)
              <= purchase_price base_sim * (p2 / qz 100)).
  { revert Hprice. generalize (purchase_price base_sim). intros a Ha.
    qc2q. nra. }
  split; [| exact G].
  apply clamp_mono. revert G.
  generalize (purchase_price base_sim * (p1 / qz 100))
             (purchase_price base_sim * (p2 / qz 100)) (purchase_price base_sim).
  intros u v a G. qc2q. lra.
Qed.

Lemma payment_antitone (base_sim : PropertySim) (p1 p2 P1 P2 : Qc) :
  0 <= purchase_price base_sim -> (0 < amort_years base_sim)%Z ->
  0 <= annual_interest_percent base_sim -> p1 <= p2 ->
  mortgage_payment_monthly (replace_down_payment_percent base_sim p1) None = Ok P1 ->
  mortgage_payment_monthly (replace_down_payment_percent base_sim p2) None = Ok P2 ->
  P2 <= P1.
Proof.
  intros Hprice Ha Hi Hp HP1 HP2.
  destruct (payment_defined_gen (replace_down_payment_percent base_sim p1) Ha Hi)
    as [Q1 [HQ1 E1]].
  destruct (payment_defined_gen (replace_down_payment_percent base_sim p2) Ha Hi)
    as [Q2 [HQ2 E2]].
  assert (Q1 = P1) by congruence. assert (Q2 = P2) by congruence. subst Q1 Q2.
  destruct (loan_amount_antitone base_sim p1 p2 Hprice Hp) as [HL _].
  pose proof (monthly_rate_nonneg_gen (replace_down_payment_percent base_sim p1) Hi)
    as Hr.
  pose proof (term_months_pos_gen (replace_down_payment_percent base_sim p1) Ha) as HN.
  change (monthly_rate (replace_down_payment_percent base_sim p2))
    with (monthly_rate (replace_down_payment_percent base_sim p1)) in E2.
  change (term_months (replace_down_payment_percent base_sim p2))
    with (term_months (replace_down_payment_percent base_sim p1)) in E2.
  pose proof (annuity_pos _ _ Hr HN) as HA.
  assert (HQ : 0 < (1 + monthly_rate (replace_down_payment_percent base_sim p1))
                   ^ term_months (replace_down_payment_percent base_sim p1)).
  { apply Qcpower_pos_lt. revert Hr.
    generalize (monthly_rate (replace_down_payment_percent base_sim p1)).
    intros r Hr. qc2q. lra. }
  revert E1 E2 HL HA HQ.
  generalize (annuity (1 + monthly_rate (replace_down_payment_percent base_sim p1))
                (term_months (replace_down_payment_percent base_sim p1)))
             ((1 + monthly_rate (replace_down_payment_percent base_sim p1))
                ^ term_months (replace_down_payment_percent base_sim p1))
             (loan_amount (replace_down_payment_percent base_sim p1))
             (loan_amount (replace_down_payment_percent base_sim p2)).
  intros A Q L1 L2 E1 E2 HL HA HQ.
  apply Qc_eq_Qeq in E1. apply Qc_eq_Qeq in E2.
  qc2q. nra.
Qed.

(** The first-month figures of the row that the sweep records for [p], in
    terms of the configuration evaluated for [p]. *)
Lemma sweep_row_first_month (base_sim : PropertySim) (p : Qc) (r : SweepRow.t) :
  sweep_sample base_sim p = Ok r ->
  let sim := replace_down_payment_percent base_sim p in
  exists P,
    mortgage_payment_monthly sim None = Ok P /\
    SweepRow.monthly_mortgage r = P /\
    calculate_monthly_revenue sim (initial_base_rate sim)
    = Ok (SweepRow.effective_rent r) /\
    SweepRow.monthly_expenses r
    = tax_yearly sim / qz 12 + insurance_yearly sim / qz 12
      + maintenance_yearly sim / qz 12 + other_costs_monthly sim /\
    SweepRow.monthly_cash_flow r
    = SweepRow.effective_rent r - SweepRow.monthly_expenses r - P /\
    SweepRow.down_payment r = down_payment sim.
Proof.
  intros H sim.
  destruct (sweep_sample_inv _ _ _ H) as [d [c' [res [r0 [Hrun [_ [Hrow ->]]]]]]].
  destruct (first_row _ _ _ _ Hrun Hrow) as [P [HP [Em [Er [Ee Ec]]]]].
  exists P.
  cbn [row_of_run SweepRow.effective_rent SweepRow.monthly_expenses
       SweepRow.down_payment SweepRow.monthly_mortgage SweepRow.monthly_cash_flow].
  repeat (split; [assumption |]). reflexivity.
Qed.

Lemma sweep_cash_flow_compared
    (base_sim : PropertySim) (p1 p2 : Qc) (r1 r2 : SweepRow.t) :
  0 <= purchase_price base_sim -> (0 < amort_years base_sim)%Z ->
  0 <= annual_interest_percent base_sim -> p1 <= p2 ->
  sweep_sample base_sim p1 = Ok r1 -> sweep_sample base_sim p2 = Ok r2 ->
  SweepRow.monthly_cash_flow r1 <= SweepRow.monthly_cash_flow r2.
Proof.
  intros Hprice Ha Hi Hp H1 H2.
  destruct (sweep_row_first_month _ _ _ H1) as [P1 [HP1 [_ [Er1 [Ee1 [Ec1 _]]]]]].
  destruct (sweep_row_first_month _ _ _ H2) as [P2 [HP2 [_ [Er2 [Ee2 [Ec2 _]]]]]].
  pose proof (payment_antitone base_sim p1 p2 P1 P2 Hprice Ha Hi Hp HP1 HP2) as HP.
  assert (E : Ok (SweepRow.effective_rent r1) = Ok (SweepRow.effective_rent r2))
    by (rewrite <- Er1, <- Er2; reflexivity).
  injection E as Erent.
  rewrite Ec1, Ec2, Ee1, Ee2, Erent. clear Ee1 Ee2 Ec1 Ec2.
  change (tax_yearly (replace_down_payment_percent base_sim p1))
    with (tax_yearly (replace_down_payment_percent base_sim p2)).
  change (insurance_yearly (replace_down_payment_percent base_sim p1))
    with (insurance_yearly (replace_down_payment_percent base_sim p2)).
  change (maintenance_yearly (replace_down_payment_percent base_sim p1))
    with (maintenance_yearly (replace_down_payment_percent base_sim p2)).
  change (other_costs_monthly (replace_down_payment_percent base_sim p1))
    with (other_costs_monthly (replace_down_payment_percent base_sim p2)).
  revert HP.
  generalize (SweepRow.effective_rent r2)
             (tax_yearly (replace_down_payment_percent base_sim p2) / qz 12
              + insurance_yearly (replace_down_payment_percent base_sim p2) / qz 12
              + maintenance_yearly (replace_down_payment_percent base_sim p2) / qz 12
              + other_costs_monthly (replace_down_payment_percent base_sim p2)).
  intros u v HP. qc2q. lra.
Qed.

(** X7.  Along a sweep only the mortgage moves.  For a base configuration
    with a non-negative price, a positive amortization period and a
    non-negative interest rate, the rows of two percentages [p1 <= p2] carry
    the same first-month rent and expenses; the row of the higher percentage
    has the higher down payment, a mortgage payment that is not higher and a
    first-month cash flow that is not lower. *)
Theorem sweep_cash_flow_rises_with_down_payment
    (base_sim : PropertySim) (p1 p2 : Qc) (r1 r2 : SweepRow.t) :
  0 <= purchase_price base_sim -> (0 < amort_years base_sim)%Z ->
  0 <= annual_interest_percent base_sim -> p1 <= p2 ->
  sweep_sample base_sim p1 = Ok r1 -> sweep_sample base_sim p2 = Ok r2 ->
  SweepRow.effective_rent r1 = SweepRow.effective_rent r2 /\
  SweepRow.monthly_expenses r1 = SweepRow.monthly_expenses r2 /\
  SweepRow.down_payment r1 <= SweepRow.down_payment r2 /\
  SweepRow.monthly_mortgage r2 <= SweepRow.monthly_mortgage r1 /\
  SweepRow.monthly_cash_flow r1 <= SweepRow.monthly_cash_flow r2.
Proof.
  intros Hprice Ha Hi Hp H1 H2.
  destruct (sweep_row_first_month _ _ _ H1) as [P1 [HP1 [Em1 [Er1 [Ee1 [_ Ed1]]]]]].
  destruct (sweep_row_first_month _ _ _ H2) as [P2 [HP2 [Em2 [Er2 [Ee2 [_ Ed2]]]]]].
  split.
  { assert (E : Ok (SweepRow.effective_rent r1) = Ok (SweepRow.effective_rent r2))
      by (rewrite <- Er1, <- Er2; reflexivity).
    injection E as E. exact E. }
  split; [rewrite Ee1, Ee2; reflexivity |].
  split.
  { rewrite Ed1, Ed2. exact (proj2 (loan_amount_antitone base_sim p1 p2 Hprice Hp)). }
  split.
  { rewrite Em1, Em2.
    exact (payment_antitone base_sim p1 p2 P1 P2 Hprice Ha Hi Hp HP1 HP2). }
  exact (sweep_cash_flow_compared base_sim p1 p2 r1 r2 Hprice Ha Hi Hp H1 H2).
Qed.

(** X8.  The break-even percentage of a sweep is a threshold.  Under the
    same conditions on the base configuration, every percentage at or above
    the reported break-even percentage gives a positive first-month cash
    flow, so the samples that the early exit skips would all have been
    positive; and no percentage at or below a row that precedes the last row
    gives one. *)
Theorem break_even_is_a_threshold
    (base_sim : PropertySim) (upper lower : Qc) (n : Z)
    (rows : list SweepRow.t) (a p : option Qc) :
  0 <= purchase_price base_sim -> (0 < amort_years base_sim)%Z ->
  0 <= annual_interest_percent base_sim ->
  down_payment_for_cashflow base_sim upper lower n = Ok (rows, a, p) ->
  (forall pct, p = Some pct ->
     forall q row, pct <= q -> sweep_sample base_sim q = Ok row ->
                   0 < SweepRow.monthly_cash_flow row) /\
  (forall i prev, (S i < List.length rows)%nat -> nth_error rows i = Some prev ->
     forall q row, q <= SweepRow.down_payment_percentage prev ->
                   sweep_sample base_sim q = Ok row ->
                   ~ 0 < SweepRow.monthly_cash_flow row).
Proof.
  intros Hprice Ha Hi Hsweep.
  destruct (down_payment_for_cashflow_inv _ _ _ _ _ _ _ Hsweep)
    as [range [_ [Hloop [_ [_ Ep]]]]].
  destruct (sweep_loop_inv _ _ _ _ Hloop) as [new [E [_ [_ [Hrows _]]]]].
  simpl in E. subst new.
  assert (Hpct : forall i r, nth_error rows i = Some r ->
            sweep_sample base_sim (SweepRow.down_payment_percentage r) = Ok r).
  { intros i r Hr. destruct (Hrows i r Hr) as [[p0 [_ Hs]] _].
    destruct (sweep_sample_inv _ _ _ Hs) as [d [c' [res [r0 [_ [_ [_ Er]]]]]]].
    rewrite Er at 1. cbn [row_of_run SweepRow.down_payment_percentage]. exact Hs. }
  split.
  - intros pct Hpct' q row Hq Hrow. subst p.
    destruct (find positive_row rows) as [r |] eqn:Ef; [| discriminate].
    injection Hpct' as <-.
    destruct (find_first _ _ _ Ef) as [i [Hr [Hpos _]]].
    apply Qcltb_true in Hpos.
    pose proof (sweep_cash_flow_compared base_sim _ _ _ _
                  Hprice Ha Hi Hq (Hpct i r Hr) Hrow) as Hle.
    apply Qclt_le_trans with (SweepRow.monthly_cash_flow r); assumption.
  - intros i prev Hi' Hprev q row Hq Hrow Hpos.
    destruct (Hrows i prev Hprev) as [_ Hnp]. specialize (Hnp Hi').
    apply Qcltb_false in Hnp.
    pose proof (sweep_cash_flow_compared base_sim _ _ _ _
                  Hprice Ha Hi Hq Hrow (Hpct i prev Hprev)) as Hle.
    apply (Qcle_not_lt _ _ Hnp).
    apply Qclt_le_trans with (SweepRow.monthly_cash_flow row); assumption.
Qed.

(** X7 at the reference configuration, for 50% and 100% down. *)
Lemma sweep_cash_flow_rises_with_down_payment_witness :
  exists r1 r2,
    sweep_sample reference_config (qz 50) = Ok r1 /\
    sweep_sample reference_config (qz 100) = Ok r2 /\
    SweepRow.monthly_mortgage r2 <= SweepRow.monthly_mortgage r1 /\
    SweepRow.monthly_cash_flow r1 <= SweepRow.monthly_cash_flow r2.
Proof.
  destruct (sweep_sample reference_config (qz 50)) as [r1 | e] eqn:H1;
    [| vm_compute in H1; discriminate].
  destruct (sweep_sample reference_config (qz 100)) as [r2 | e] eqn:H2;
    [| vm_compute in H2; discriminate].
  exists r1, r2. split; [reflexivity |]. split; [reflexivity |].
  assert (Hprice : 0 <= purchase_price reference_config) by (vm_compute; discriminate).
  assert (Ha : (0 < amort_years reference_config)%Z) by reflexivity.
  assert (Hi : 0 <= annual_interest_percent reference_config)
    by (vm_compute; discriminate).
  assert (Hp : qz 50 <= qz 100) by (vm_compute; discriminate).
  destruct (sweep_cash_flow_rises_with_down_payment reference_config (qz 50) (qz 100)
              r1 r2 Hprice Ha Hi Hp H1 H2) as [_ [_ [_ [G1 G2]]]].
  split; assumption.
Defined.

(** X8 for the sweep of the reference configuration over 50% and 100%. *)
Lemma break_even_is_a_threshold_witness :
  exists rows a p,
    down_payment_for_cashflow reference_config (qz 100) (qz 50) 2 = Ok (rows, a, p) /\
    forall pct, p = Some pct ->
      forall q row, pct <= q -> sweep_sample reference_config q = Ok row ->
                    0 < SweepRow.monthly_cash_flow row.
Proof.
  destruct (down_payment_for_cashflow reference_config (qz 100) (qz 50) 2)
    as [[[rows a] p] | e] eqn:Hsweep; [| vm_compute in Hsweep; discriminate].
  exists rows, a, p. split; [reflexivity |].
  assert (Hprice : 0 <= purchase_price reference_config) by (vm_compute; discriminate).
  assert (Ha : (0 < amort_years reference_config)%Z) by reflexivity.
  assert (Hi : 0 <= annual_interest_percent reference_config)
    by (vm_compute; discriminate).
  exact (proj1 (break_even_is_a_threshold reference_config (qz 100) (qz 50) 2
                  rows a p Hprice Ha Hi Hsweep)).
Defined.


(** ** Cash-on-cash and the cached summary *)

(** X9.  The initial cash-on-cash figure of the summary is the first month's
    rent less the first month's expenses, taken twelve times, over
    [total_upfront], in percent; the mortgage payment does not enter, and
    [total_upfront] is not 0 whenever [run] returns. *)
Theorem cash_on_cash_from_first_month
    (c : PropertySim) (d : DataFrame) (c' : PropertySim) :
  run c = Ok (d, c') ->
  exists res r0,
    results c' = Some res /\ nth_error d 0 = Some r0 /\
    total_upfront c <> 0 /\
    Results.initial_cash_on_cash_percent res
    = (MonthRecord.effective_rent r0 - MonthRecord.expenses r0) * qz 12
      / total_upfront c * qz 100.
Proof.
  intro Hrun.
  destruct (run_inv _ _ _ Hrun)
    as [s [res [_ [_ [_ [Hres [_ [Hcoc [_ [_ [r0 [H0 _]]]]]]]]]]]].
  exists res, r0. split; [exact Hres |]. split; [exact H0 |].
  destruct (first_row _ _ _ _ Hrun H0) as [P [_ [_ [Er [Ee _]]]]].
  assert (Erev : (if String.eqb (rental_type c) "short_term"
                  then calculate_monthly_revenue c (nightly_rate c)
                  else calculate_monthly_revenue c (monthly_rent c))
                 = Ok (MonthRecord.effective_rent r0)).
  { rewrite <- Er. unfold initial_base_rate.
    destruct (String.eqb (rental_type c) "short_term"); reflexivity. }
  unfold initial_cash_on_cash_percent in Hcoc.
  rewrite Erev in Hcoc. cbn [bind] in Hcoc.
  apply bind_ok in Hcoc. destruct Hcoc as [q [Hq Hcoc]].
  injection Hcoc as Hcoc.
  unfold fdiv in Hq.
  destruct (Qc_eq_bool (total_upfront c) 0) eqn:Eup; [discriminate |].
  apply Qc_eq_bool_false in Eup. injection Hq as Hq.
  split; [exact Eup |].
  rewrite <- Hcoc, <- Hq, Ee.
  assert (H12 : qz 12 <> 0) by (apply qz_nonzero; lia).
  field. split; assumption.
Qed.



(** X9 at the reference configuration. *)
Lemma cash_on_cash_from_first_month_witness :
  exists d c' res r0,
    run reference_config = Ok (d, c') /\
    results c' = Some res /\ nth_error d 0 = Some r0 /\
    Results.initial_cash_on_cash_percent res
    = (MonthRecord.effective_rent r0 - MonthRecord.expenses r0) * qz 12
      / total_upfront reference_config * qz 100.
Proof.
  destruct reference_config_runs as [d [c' [Hrun _]]].
  destruct (cash_on_cash_from_first_month reference_config d c' Hrun)
    as [res [r0 [H1 [H2 [_ H3]]]]].
  exists d, c', res, r0. auto.
Defined.


(** ** The rows that the plot marks *)





Lemma crossings_after_In (prev : option Qc) (l : list SweepRow.t) (r : SweepRow.t) :
  In r (crossings_after prev l) -> In r l.
Proof.
  revert prev. induction l as [| y l IH]; intros prev H; [exact H |].
  cbn [crossings_after] in H. apply in_app_or in H. destruct H as [H | H].
  - destruct (le0_nan _); [| destruct H].
    destruct H as [<- | []]. left. reflexivity.
  - right. exact (IH _ H).
Qed.







(** ** The ticks of the plot *)

Lemma floor_sample_point (L num : Z) (i : nat) :
  (2 <= num)%Z ->
  Qfloor (this (sample_point 0 (qz L) num i)) = (Z.of_nat i * L / (num - 1))%Z.
Proof.
  intro Hnum. unfold sample_point.
  destruct (num - 1)%Z as [| k | k] eqn:Ek; try lia.
  assert (E : (this (0 + qz (Z.of_nat i) * ((qz L - 0) / qz (Z.pos k)))
               == (Z.of_nat i * L) # k)%Q).
  { autorewrite with qc2q_db. unfold Qdiv.
    change (/ (Z.pos k # 1))%Q with (1 # k)%Q.
    unfold Qeq, Qplus, Qmult, Qminus, Qopp. simpl. lia. }
  rewrite E. reflexivity.
Qed.

Lemma tick_indices_closed_form (rows : list SweepRow.t) :
  (2 <= List.length rows)%nat ->
  let len := Z.of_nat (List.length rows) in
  let num := Z.min 8 len in
  tick_indices rows
  = Ok (Some (map (fun i => (Z.of_nat i * (len - 1) / (num - 1))%Z)
                (seq 0 (Z.to_nat num)))).
Proof.
  intros Hlen len num. unfold tick_indices. fold len. fold num.
  assert (Hnum : (2 <= num)%Z) by (unfold num, len; lia).
  destruct (Z.ltb_spec 1 num) as [_ | G]; [| lia].
  rewrite (linspace_points _ _ _ Hnum). cbn [bind]. rewrite map_map.
  do 2 f_equal. apply map_ext. intro i.
  apply floor_sample_point. exact Hnum.
Qed.

(** X12.  The ticks of the plot.  A frame of one row gets no ticks of its
    own.  A frame of at least two rows gets [min(8, len)] tick positions:
    the first row, the last row, only rows of the frame (no position is out
    of range), in strictly increasing order, and every row when the frame
    has at most eight. *)
Theorem tick_indices_cover_the_frame (rows : list SweepRow.t) :
  ((List.length rows <= 1)%nat -> tick_indices rows = Ok None) /\
  ((2 <= List.length rows)%nat ->
   exists ticks,
     tick_indices rows = Ok (Some ticks) /\
     List.length ticks = Nat.min 8 (List.length rows) /\
     nth_error ticks 0 = Some 0%Z /\
     nth_error ticks (List.length ticks - 1)
     = Some (Z.of_nat (List.length rows) - 1)%Z /\
     (forall i t, nth_error ticks i = Some t ->
        (0 <= t < Z.of_nat (List.length rows))%Z) /\
     (forall i j ti tj, (i < j)%nat ->
        nth_error ticks i = Some ti -> nth_error ticks j = Some tj -> (ti < tj)%Z) /\
     ((List.length rows <= 8)%nat ->
      ticks = map Z.of_nat (seq 0 (List.length rows)))).
Proof.
  split.
  - intro Hlen. unfold tick_indices.
    destruct (Z.ltb_spec 1 (Z.min 8 (Z.of_nat (List.length rows)))) as [G | _];
      [lia | reflexivity].
  - intro Hlen. pose proof (tick_indices_closed_form rows Hlen) as E.
    cbv zeta in E.
    set (len := Z.of_nat (List.length rows)) in *.
    set (num := Z.min 8 len) in *.
    assert (Hnum : (2 <= num <= len)%Z) by (unfold num, len; lia).
    assert (Hcount : Z.to_nat num = Nat.min 8 (List.length rows))
      by (unfold num, len; lia).
    set (tick := fun i : nat => (Z.of_nat i * (len - 1) / (num - 1))%Z) in *.
    assert (Hnth : forall i t, nth_error (map tick (seq 0 (Z.to_nat num))) i = Some t ->
                               (i < Z.to_nat num)%nat /\ t = tick i).
    { intros i t Hi. apply nth_error_map_some in Hi. destruct Hi as [j [Hj <-]].
      apply nth_error_seq_some in Hj. destruct Hj as [-> Hlt]. auto. }
    assert (Hmono : forall i j, (i < j)%nat -> (tick i < tick j)%Z).
    { intros i j Hij. unfold tick.
      apply Z.lt_le_trans with ((Z.of_nat i * (len - 1) + 1 * (num - 1)) / (num - 1))%Z.
      - rewrite Z.div_add by lia. lia.
      - apply Z.div_le_mono; [lia | nia]. }
    assert (Hlast : tick (Z.to_nat num - 1)%nat = (len - 1)%Z).
    { unfold tick. replace (Z.of_nat (Z.to_nat num - 1)) with (num - 1)%Z by lia.
      rewrite Z.mul_comm. apply Z.div_mul. lia. }
    assert (Hfirst : tick 0%nat = 0%Z) by reflexivity.
    exists (map tick (seq 0 (Z.to_nat num))).
    split; [exact E |].
    split; [rewrite length_map, length_seq; exact Hcount |].
    split.
    { destruct (Z.to_nat num) as [| k] eqn:Ek; [lia |]. reflexivity. }
    split.
    { rewrite length_map, length_seq.
      rewrite nth_error_map, nth_error_seq.
      destruct (Nat.ltb_spec (Z.to_nat num - 1) (Z.to_nat num)) as [_ | G]; [| lia].
      cbn [option_map]. rewrite Nat.add_0_l, Hlast. reflexivity. }
    split.
    { intros i t Hi. destruct (Hnth i t Hi) as [Hlt ->].
      assert (H0 : (0 <= tick i)%Z).
      { unfold tick. apply Z.div_pos; [nia | lia]. }
      assert (H1 : (tick i <= tick (Z.to_nat num - 1)%nat)%Z).
      { destruct (Nat.eq_dec i (Z.to_nat num - 1)) as [-> | Hne]; [lia |].
        apply Z.lt_le_incl, Hmono. lia. }
      rewrite Hlast in H1. unfold len in *. lia. }
    split.
    { intros i j ti tj Hij Hi Hj.
      destruct (Hnth i ti Hi) as [_ ->]. destruct (Hnth j tj Hj) as [_ ->].
      exact (Hmono i j Hij). }
    intro H8.
    assert (En : num = len) by (unfold num, len; lia).
    replace (Z.to_nat num) with (List.length rows) by (unfold len in *; lia).
    apply map_ext. intro i. unfold tick. rewrite En. apply Z.div_mul. lia.
Qed.

(** ** Sample counts below two, and samples that raise *)

Lemma sweep_sample_error (base_sim : PropertySim) (p : Qc) (e : exn) :
  run (replace_down_payment_percent base_sim p) = Raise e ->
  sweep_sample base_sim p = Raise e.
Proof.
  intro H. unfold sweep_sample. rewrite H. reflexivity.
Qed.

Lemma sweep_loop_error (base_sim : PropertySim) (range : list Qc) (k : nat) (q : Qc)
    (e : exn) (acc : list SweepRow.t) :
  nth_error range k = Some q ->
  sweep_sample base_sim q = Raise e ->
  (forall i qi, (i < k)%nat -> nth_error range i = Some qi ->
     exists r, sweep_sample base_sim qi = Ok r /\ positive_row r = false) ->
  sweep_loop base_sim range acc = Raise e.
Proof.
  revert k acc. induction range as [| p rest IH]; intros k acc Hk He Hbefore.
  - destruct k; discriminate.
  - destruct k as [| k].
    + injection Hk as ->. cbn [sweep_loop]. rewrite He. reflexivity.
    + destruct (Hbefore 0%nat p ltac:(lia) eq_refl) as [r [Hr Hneg]].
      cbn [sweep_loop]. rewrite Hr. cbn [bind].
      unfold positive_row in Hneg. rewrite Hneg.
      apply (IH k); [exact Hk | exact He |].
      intros i qi Hi Hqi. apply (Hbefore (S i) qi); [lia | exact Hqi].
Qed.

Lemma linspace_single (lower upper : Qc) : linspace lower upper 1 = Ok [lower]%list.
Proof.
  unfold linspace. simpl. do 2 f_equal.
  change (qz 0) with 0. ring.
Qed.

(** X13.  The sample count at its edges.  A negative count raises
    ValueError and a count of 0 raises KeyError, the frame of results having
    no column to filter; a count of 1 samples [lower_limit] alone, whatever
    [upper_limit] is, and returns one row. *)
Theorem sweep_sample_count_edges (base_sim : PropertySim) (upper lower : Qc) :
  (forall n, (n < 0)%Z ->
     down_payment_for_cashflow base_sim upper lower n = Raise ValueError) /\
  down_payment_for_cashflow base_sim upper lower 0 = Raise KeyError /\
  (forall row, sweep_sample base_sim lower = Ok row ->
     down_payment_for_cashflow base_sim upper lower 1
     = Ok ([row]%list,
           if positive_row row then Some (SweepRow.down_payment row) else None,
           if positive_row row
           then Some (SweepRow.down_payment_percentage row) else None)) /\
  (forall e, sweep_sample base_sim lower = Raise e ->
     down_payment_for_cashflow base_sim upper lower 1 = Raise e).
Proof.
  split; [| split; [| split]].
  - intros n Hn. unfold down_payment_for_cashflow, linspace.
    destruct (Z.ltb_spec n 0) as [_ | G]; [reflexivity | lia].
  - reflexivity.
  - intros row Hrow. unfold down_payment_for_cashflow.
    rewrite linspace_single. cbn [bind].
    cbn [sweep_loop]. rewrite Hrow. cbn [bind app].
    fold (positive_row row).
    destruct (positive_row row) eqn:Epos; cbn [sweep_loop bind positive_rows filter];
      fold (positive_row row); rewrite Epos; reflexivity.
  - intros e He. unfold down_payment_for_cashflow.
    rewrite linspace_single. cbn [bind].
    cbn [sweep_loop]. rewrite He. reflexivity.
Qed.

(** X14.  The sweep hands on the exception of a sample.  When the run of a
    sampled percentage raises and every sample before it ran without a
    positive cash flow, the sweep raises the same exception and returns no
    rows. *)
Theorem sweep_raises_what_a_sample_raises
    (base_sim : PropertySim) (upper lower : Qc) (n : Z)
    (range : list Qc) (k : nat) (q : Qc) (e : exn) :
  linspace lower upper n = Ok range ->
  nth_error range k = Some q ->
  run (replace_down_payment_percent base_sim q) = Raise e ->
  (forall i qi, (i < k)%nat -> nth_error range i = Some qi ->
     exists r, sweep_sample base_sim qi = Ok r /\
               ~ 0 < SweepRow.monthly_cash_flow r) ->
  down_payment_for_cashflow base_sim upper lower n = Raise e.
Proof.
  intros Hrange Hk Hrun Hbefore.
  unfold down_payment_for_cashflow. rewrite Hrange. cbn [bind].
  rewrite (sweep_loop_error base_sim range k q e []%list Hk
             (sweep_sample_error _ _ _ Hrun)); [reflexivity |].
  intros i qi Hi Hqi. destruct (Hbefore i qi Hi Hqi) as [r [Hr Hneg]].
  exists r. split; [exact Hr |].
  unfold positive_row. destruct (Qcltb 0 (SweepRow.monthly_cash_flow r)) eqn:E;
    [| reflexivity].
  apply Qcltb_true in E. contradiction.
Qed.

(** X14 for a sweep from 0% down of a purchase without closing costs: the
    first sample has nothing paid up front and its run divides by 0. *)
Lemma sweep_raises_what_a_sample_raises_witness :
  linspace 0 (qz 50) 2 = Ok (map (sample_point 0 (qz 50) 2) (seq 0 2)) /\
  run (replace_down_payment_percent zero_upfront_config (sample_point 0 (qz 50) 2 0))
  = Raise ZeroDivisionError /\
  down_payment_for_cashflow zero_upfront_config (qz 50) 0 2 = Raise ZeroDivisionError.
Proof.
  assert (H1 : linspace 0 (qz 50) 2 = Ok (map (sample_point 0 (qz 50) 2) (seq 0 2)))
    by (apply linspace_points; lia).
  assert (H2 : run (replace_down_payment_percent zero_upfront_config
                      (sample_point 0 (qz 50) 2 0)) = Raise ZeroDivisionError)
    by (vm_compute; reflexivity).
  split; [exact H1 |]. split; [exact H2 |].
  apply (sweep_raises_what_a_sample_raises zero_upfront_config (qz 50) 0 2
           (map (sample_point 0 (qz 50) 2) (seq 0 2)) 0
           (sample_point 0 (qz 50) 2 0) ZeroDivisionError H1 eq_refl H2).
  intros i qi Hi. lia.
Defined.

(** ** Fields that a short-term run does not read *)

Section ShortTerm.
Variables c1 c2 : PropertySim.
Hypothesis H1 : rental_type c1 = "short_term"%string.
Hypothesis H2 : rental_type c2 = "short_term"%string.
Hypothesis Hagree : agree_short_term c1 c2.

Lemma short_term_revenue (b : Qc) :
  calculate_monthly_revenue c1 b = calculate_monthly_revenue c2 b.
Proof.
  unfold calculate_monthly_revenue.
  rewrite H1, H2, (st_occupancy _ _ Hagree), (st_stay _ _ Hagree),
    (st_cleaning _ _ Hagree), (st_platform _ _ Hagree). reflexivity.
Qed.

Lemma short_term_payment :
  mortgage_payment_monthly c1 None = mortgage_payment_monthly c2 None.
Proof.
  unfold mortgage_payment_monthly, loan_amount, down_payment, monthly_rate.
  rewrite (st_price _ _ Hagree), (st_down _ _ Hagree),
    (st_interest _ _ Hagree), (st_amort _ _ Hagree). reflexivity.
Qed.

Lemma short_term_body (m : nat) (s : St.t) : body_of c1 m s = body_of c2 m s.
Proof.
  unfold body_of, loop_body, monthly_rate.
  rewrite (st_growth _ _ Hagree), (st_appreciation _ _ Hagree),
    (st_tax _ _ Hagree), (st_insurance _ _ Hagree),
    (st_maintenance _ _ Hagree), (st_other _ _ Hagree),
    (st_interest _ _ Hagree).
  rewrite short_term_revenue. reflexivity.
Qed.

Lemma short_term_init (P : Qc) : loop_init c1 P = loop_init c2 P.
Proof.
  unfold loop_init, loan_amount, down_payment, tax_yearly, insurance_yearly,
    maintenance_yearly.
  rewrite H1, H2.
  rewrite (st_price _ _ Hagree), (st_down _ _ Hagree),
    (st_tax _ _ Hagree), (st_insurance _ _ Hagree),
    (st_maintenance _ _ Hagree), (st_nightly _ _ Hagree),
    (st_start _ _ Hagree). reflexivity.
Qed.

Lemma short_term_for_range (count start : nat) (s : St.t) :
  for_range (body_of c1) start count s = for_range (body_of c2) start count s.
Proof.
  revert start s. induction count as [| k IH]; intros start s; simpl.
  - reflexivity.
  - rewrite short_term_body. destruct (body_of c2 start s) as [s' | e]; simpl.
    + apply IH.
    + reflexivity.
Qed.

Lemma short_term_simulate (k : nat) : simulate c1 k = simulate c2 k.
Proof.
  unfold simulate. fold (body_of c1). fold (body_of c2).
  rewrite short_term_payment.
  destruct (mortgage_payment_monthly c2 None) as [P | e]; simpl.
  - rewrite short_term_init. apply short_term_for_range.
  - reflexivity.
Qed.

Lemma short_term_coc :
  initial_cash_on_cash_percent c1 = initial_cash_on_cash_percent c2.
Proof.
  unfold initial_cash_on_cash_percent, total_upfront, down_payment, closing_costs,
    tax_yearly, insurance_yearly, maintenance_yearly.
  pose proof (short_term_revenue (nightly_rate c1)) as E.
  rewrite H1, H2. cbn [String.eqb Ascii.eqb Bool.eqb]. rewrite E.
  rewrite (st_price _ _ Hagree), (st_down _ _ Hagree),
    (st_tax _ _ Hagree), (st_insurance _ _ Hagree),
    (st_maintenance _ _ Hagree), (st_nightly _ _ Hagree),
    (st_other _ _ Hagree), (st_closing _ _ Hagree). reflexivity.
Qed.

Lemma short_term_run_ok (d : DataFrame) (c1' : PropertySim) :
  run c1 = Ok (d, c1') ->
  exists c2', run c2 = Ok (d, c2') /\ results c2' = results c1'.
Proof.
  unfold run. intro H.
  apply bind_ok in H. destruct H as [s [Hs H]].
  apply bind_ok in H. destruct H as [fc [Hfc H]].
  apply bind_ok in H. destruct H as [mm [Hmm H]].
  apply bind_ok in H. destruct H as [coc [Hcoc H]].
  apply bind_ok in H. destruct H as [lcf [Hlcf H]].
  injection H as <- <-.
  unfold total_months in *.
  rewrite <- short_term_simulate, <- short_term_payment, <- short_term_coc,
    <- (st_years _ _ Hagree), Hs.
  cbn [bind]. rewrite Hfc. cbn [bind]. rewrite Hmm. cbn [bind].
  rewrite Hcoc. cbn [bind]. rewrite Hlcf. cbn [bind].
  eexists. split; [reflexivity |]. cbn [results].
  unfold total_upfront, down_payment, closing_costs.
  rewrite (st_price _ _ Hagree), (st_down _ _ Hagree),
    (st_closing _ _ Hagree). reflexivity.
Qed.

Lemma short_term_run_error (e : exn) : run c1 = Raise e -> run c2 = Raise e.
Proof.
  unfold run, total_months.
  rewrite <- short_term_simulate, <- short_term_payment, <- short_term_coc,
    <- (st_years _ _ Hagree).
  destruct (simulate c1 (Z.to_nat (years c1 * 12))) as [s | e1]; cbn [bind];
    [| exact (fun H => H)].
  destruct (iloc_first MonthRecord.cumulative_cash_flow (St.ts s)) as [fc | e1];
    cbn [bind]; [| exact (fun H => H)].
  destruct (mortgage_payment_monthly c1 None) as [mm | e1];
    cbn [bind]; [| exact (fun H => H)].
  destruct (initial_cash_on_cash_percent c1) as [coc | e1];
    cbn [bind]; [| exact (fun H => H)].
  destruct (iloc_last MonthRecord.monthly_cash_flow (St.ts s)) as [lcf | e1];
    cbn [bind]; [| exact (fun H => H)].
  discriminate.
Qed.
End ShortTerm.

(** X15.  A short-term run reads neither [monthly_rent] nor
    [vacancy_percent]: two short-term configurations that agree on the
    fields listed in [agree_short_term] produce the same frame and the same
    summary, or raise the same exception. *)
Theorem short_term_run_ignores_long_term_fields (c1 c2 : PropertySim) :
  rental_type c1 = "short_term"%string ->
  rental_type c2 = "short_term"%string ->
  agree_short_term c1 c2 ->
  (forall d c1', run c1 = Ok (d, c1') ->
     exists c2', run c2 = Ok (d, c2') /\ results c2' = results c1') /\
  (forall e, run c1 = Raise e -> run c2 = Raise e).
Proof.
  intros H1 H2 Hagree. split.
  - intros d c1'. apply short_term_run_ok; assumption.
  - intro e. apply short_term_run_error; assumption.
Qed.

(** X15 for the short-term listing and its copy with another rent on file. *)
Lemma short_term_run_ignores_long_term_fields_witness :
  exists d c1' c2',
    run short_term_config = Ok (d, c1') /\
    run short_term_config_other_rent = Ok (d, c2') /\
    results c2' = results c1'.
Proof.
  assert (Hruns : exists d c', run short_term_config = Ok (d, c')
                               /\ List.length d = 24%nat).
  { apply (run_ok short_term_config); try reflexivity.
    - vm_compute. discriminate.
    - apply Qc_eq_bool_false. vm_compute. reflexivity.
    - intros _. apply Qc_eq_bool_false. vm_compute. reflexivity. }
  destruct Hruns as [d [c1' [Hrun _]]].
  assert (A : agree_short_term short_term_config short_term_config_other_rent)
    by (split; reflexivity).
  destruct (short_term_run_ignores_long_term_fields short_term_config
              short_term_config_other_rent eq_refl eq_refl A) as [H _].
  destruct (H d c1' Hrun) as [c2' [Hr He]].
  exists d, c1', c2'. auto.
Defined.
